(** * Kurisu help paginators: a shallow embedding of [utils/help.py]

    The paginator classes, the navigation view and the selector splitting of
    the help command, written as Rocq functions over explicit state, together
    with the properties the specification states about them.

    Python [int] is [Z]; [str] is [string]; the page cache
    [pages : dict[int, Embed]] is a [gmap Z Embed]; the category mapping, a
    [dict] whose iteration order matters, is an insertion-ordered association
    list; a raised exception is a [Raise] result that keeps the state reached
    so far. *)

From stdpp Require Import gmap list strings pretty.
From Stdlib Require Import ZArith Ascii Lia.

Local Open Scope string_scope.
Local Open Scope Z_scope.

(** ** Python primitives used by the module *)

Inductive exn := IndexError | KeyError | AttributeError | ValueError.

Inductive result (A : Type) :=
| Ok (a : A)
| Raise (e : exn).
Arguments Ok {A} a.
Arguments Raise {A} e.

Global Instance result_ret : MRet result := fun _ a => Ok a.

Global Instance result_bind : MBind result := fun _ _ k r =>
  match r with
  | Ok a => k a
  | Raise e => Raise e
  end.

(** A [for] loop whose body may raise: the state is threaded through the
    items until one raises. *)
Fixpoint for_each {A B} (f : A -> B -> result A) (a : A) (l : list B)
  : result A :=
  match l with
  | [] => Ok a
  | x :: l' => a' ← f a x; for_each f a' l'
  end.

(** [math.ceil(n / k)] for a length [n] and a positive capacity [k]. The
    source divides in floating point; for the lengths a list can have the
    quotient is exact enough that the ceiling is the integer one. *)
Definition ceil_div (n k : Z) : Z := - ((- n) / k).

(** [range(0, stop, step)] for a positive [step]. *)
Definition py_range0 (stop step : Z) : list Z :=
  map (fun k => Z.of_nat k * step) (seq 0 (Z.to_nat (ceil_div stop step))).

(** A slice bound as Python normalises it: negative bounds count from the
    end, and everything is clamped to [0, len]. *)
Definition slice_bound (len i : Z) : Z :=
  if i <? 0 then Z.max 0 (i + len) else Z.min i len.

(** [l[lo:hi]] *)
Definition py_slice {A} (l : list A) (lo hi : Z) : list A :=
  let len := Z.of_nat (length l) in
  let lo' := slice_bound len lo in
  let hi' := slice_bound len hi in
  take (Z.to_nat (hi' - lo')) (drop (Z.to_nat lo') l).

(** [l[i]]: negative indices count from the end, out of range raises. *)
Definition py_index {A} (l : list A) (i : Z) : result A :=
  let len := Z.of_nat (length l) in
  let j := if i <? 0 then i + len else i in
  if (j <? 0) || (len <=? j) then Raise IndexError
  else match l !! Z.to_nat j with
       | Some a => Ok a
       | None => Raise IndexError
       end.

(** [islice(it, n)]: the items drawn and the iterator left behind. *)
Definition islice {A} (it : list A) (n : nat) : list A * list A :=
  (take n it, drop n it).

(** ** The framework objects the module reads *)

(** A command of the host framework, with the attributes the module reads.
    [help] is [None] when the command has no doc string. *)
Record Command := {
  name : string;
  qualified_name : string;
  signature : string;
  short_doc : string;
  help : option string;
  description : string;
  aliases : list string;
  cog_name : option string
}.

(** A category. A command group passed to the detail paginator exposes the
    same two attributes. *)
Record Cog := {
  cog_qualified_name : string;
  cog_description : string
}.

Global Instance Cog_eq_dec : EqDecision Cog.
Proof. solve_decision. Defined.

Record Field := {
  field_name : string;
  field_value : string;
  inline : bool
}.

Record Embed := {
  title : string;
  embed_description : string;
  colour : Z;
  fields : list Field;
  footer : string
}.

Definition add_field (e : Embed) (n v : string) (i : bool) : Embed :=
  {| title := title e; embed_description := embed_description e;
     colour := colour e; footer := footer e;
     fields := fields e ++ [{| field_name := n; field_value := v; inline := i |}] |}.

Definition set_title (e : Embed) (t : string) : Embed :=
  {| title := t; embed_description := embed_description e;
     colour := colour e; footer := footer e; fields := fields e |}.

Definition set_footer (e : Embed) (t : string) : Embed :=
  {| title := title e; embed_description := embed_description e;
     colour := colour e; footer := t; fields := fields e |}.

Definition set_description (e : Embed) (t : string) : Embed :=
  {| title := title e; embed_description := t;
     colour := colour e; footer := footer e; fields := fields e |}.

(** Truth value of an embed, as [if embed := ...] tests it: the library's
    embed is false only when it carries no text at all. *)
Definition embed_len (e : Embed) : nat :=
  (String.length (title e) + String.length (embed_description e)
   + String.length (footer e)
   + foldr (fun f n => String.length (field_name f) + String.length (field_value f) + n) 0 (fields e))%nat.

Definition embed_bool (e : Embed) : bool := negb (Nat.eqb (embed_len e) 0).

(** [s or default] on a string. *)
Definition str_or (s d : string) : string :=
  if String.eqb s "" then d else s.

(** ** [BasePaginator] *)

Module BasePaginator.

Record t := {
  n_pages : Z;
  idx : Z;
  pages : gmap Z Embed
}.

Definition init (n : Z) : t :=
  {| n_pages := n; idx := 0; pages := ∅ |}.

Definition set_idx (p : t) (i : Z) : t :=
  {| n_pages := n_pages p; idx := i; pages := pages p |}.

Definition previous (p : t) : t := set_idx p (Z.max (idx p - 1) 0).

Definition next (p : t) : t := set_idx p (Z.min (idx p + 1) (n_pages p - 1)).

Definition first (p : t) : t := set_idx p 0.

Definition last (p : t) : t := set_idx p (n_pages p - 1).

Definition is_first (p : t) : bool := idx p =? 0.

Definition is_last (p : t) : bool := idx p =? n_pages p - 1.

(** [self.pages[self.idx] = embed] *)
Definition store (p : t) (e : Embed) : t :=
  {| n_pages := n_pages p; idx := idx p; pages := <[idx p := e]> (pages p) |}.

End BasePaginator.

Definition newline : string := String (Ascii.ascii_of_nat 10) "".

(** The [ [page/total]] suffix both multi-page renderers append. *)
Definition page_suffix (b : BasePaginator.t) : string :=
  " [" +:+ pretty (BasePaginator.idx b + 1) +:+ "/"
       +:+ pretty (BasePaginator.n_pages b) +:+ "]".

Definition new_embed (t d : string) : Embed :=
  {| title := t; embed_description := d; colour := 0xb01ec3;
     fields := []; footer := "" |}.

(** ** [CogHelpPaginator] *)

Module CogHelpPaginator.

Definition commands_per_page : Z := 8.

Record t := {
  base : BasePaginator.t;
  cog : Cog;
  commands : list Command;
  prefix : string
}.

Definition init (c : Cog) (cmds : list Command) (pre : string) : t :=
  {| base := BasePaginator.init
               (ceil_div (Z.of_nat (length cmds)) commands_per_page);
     cog := c; commands := cmds; prefix := pre |}.

Definition with_base (p : t) (b : BasePaginator.t) : t :=
  {| base := b; cog := cog p; commands := commands p; prefix := prefix p |}.

Definition command_field (e : Embed) (c : Command) : Embed :=
  add_field e (qualified_name c +:+ " " +:+ signature c)
            (str_or (short_doc c) "No help for you.") false.

Definition create_embed (p : t) (cmds : list Command) : Embed :=
  let embed := new_embed (cog_qualified_name (cog p) +:+ " commands")
                         (cog_description (cog p)) in
  let embed :=
    if 1 <? BasePaginator.n_pages (base p)
    then set_title embed (title embed +:+ page_suffix (base p))
    else embed in
  let embed := foldl command_field embed cmds in
  set_footer embed
    ("Use " +:+ prefix p +:+ "help [command] for more info about a command.").

Definition build (p : t) : Embed * t :=
  let index := BasePaginator.idx (base p) * commands_per_page in
  let embed :=
    create_embed p (py_slice (commands p) index (index + commands_per_page)) in
  (embed, with_base p (BasePaginator.store (base p) embed)).

Definition current (p : t) : Embed * t :=
  match BasePaginator.pages (base p) !! BasePaginator.idx (base p) with
  | Some embed => if embed_bool embed then (embed, p) else build p
  | None => build p
  end.

End CogHelpPaginator.

(** ** [MainHelpPaginator] *)

(** The category mapping: a [dict] from category to its commands, kept in
    insertion order. A well-formed one has no repeated key. *)
Abbreviation Mapping := (list (Cog * list Command)).

Definition dict_wf (m : Mapping) : Prop := NoDup (m.*1).

(** [mapping[k]] *)
Fixpoint dict_get (m : Mapping) (k : Cog) : result (list Command) :=
  match m with
  | [] => Raise KeyError
  | (k', v) :: m' => if decide (k = k') then Ok v else dict_get m' k
  end.

Module MainHelpPaginator.

Definition categories_per_page : Z := 9.

Record t := {
  base : BasePaginator.t;
  description : string;
  prefix : string;
  slices : list Mapping
}.

(** [{k: mapping[k] for k in islice(it, categories_per_page)}] *)
Definition slice_of (mapping : Mapping) (ks : list Cog) : result Mapping :=
  mapM (fun k => v ← dict_get mapping k; mret (k, v)) ks.

(** The loop of the constructor: one slice per element of the range, each
    drawn from the shared key iterator [it]. *)
Fixpoint build_slices (mapping : Mapping) (rng : list Z) (it : list Cog)
  : result (list Mapping) :=
  match rng with
  | [] => mret []
  | _ :: rng' =>
      let '(ks, it') := islice it (Z.to_nat categories_per_page) in
      s ← slice_of mapping ks;
      rest ← build_slices mapping rng' it';
      mret (s :: rest)
  end.

Definition init (mapping : Mapping) (desc pre : string) : result t :=
  let len := Z.of_nat (length mapping) in
  sl ← build_slices mapping (py_range0 len categories_per_page) (mapping.*1);
  mret {| base := BasePaginator.init (ceil_div len categories_per_page);
          description := desc; prefix := pre; slices := sl |}.

Definition with_base (p : t) (b : BasePaginator.t) : t :=
  {| base := b; description := description p; prefix := prefix p;
     slices := slices p |}.

Definition category_field (e : Embed) (entry : Cog * list Command) : Embed :=
  let '(category, cmds) := entry in
  match cmds with
  | [] => e
  | _ => add_field e
           ("**" +:+ cog_qualified_name category +:+ "** ["
                 +:+ pretty (Z.of_nat (length cmds)) +:+ "]")
           (cog_description category) true
  end.

Definition create_embed (p : t) (mapping : Mapping) : Embed :=
  let embed := new_embed "Kurisu the bot for Nintendo Homebrew" "" in
  let embed := set_description embed
    (description p +:+ newline +:+ newline
       +:+ "Below you will find the categories of commands in Kurisu:") in
  let embed := set_footer embed
    ("Use " +:+ prefix p
       +:+ "help [category] for more info about a category or select a category below.") in
  let embed :=
    if 1 <? BasePaginator.n_pages (base p)
    then set_title embed (title embed +:+ page_suffix (base p))
    else embed in
  foldl category_field embed mapping.

Definition build (p : t) : result (Embed * t) :=
  m ← py_index (slices p) (BasePaginator.idx (base p));
  let embed := create_embed p m in
  mret (embed, with_base p (BasePaginator.store (base p) embed)).

Definition current (p : t) : result (Embed * t) :=
  match BasePaginator.pages (base p) !! BasePaginator.idx (base p) with
  | Some embed => if embed_bool embed then mret (embed, p) else build p
  | None => build p
  end.

End MainHelpPaginator.

(** ** [CommandHelpPaginator] *)

Module CommandHelpPaginator.

Record t := {
  base : BasePaginator.t;
  description : string;
  prefix : string;
  command : Command
}.

Definition init (c : Command) (pre : string) : t :=
  {| base := BasePaginator.init 1;
     description := match help c with
                    | Some h => str_or h "No help for you."
                    | None => "No help for you."
                    end;
     prefix := pre; command := c |}.

Definition with_base (p : t) (b : BasePaginator.t) : t :=
  {| base := b; description := description p; prefix := prefix p;
     command := command p |}.

Definition create_embed (p : t) (c : Command) : Embed :=
  let embed := new_embed (name c +:+ " command") "" in
  let embed := set_description embed (description p) in
  let embed :=
    match aliases c with
    | [] => embed
    | _ => add_field embed "Aliases" (String.concat " " (aliases c)) false
    end in
  let embed := add_field embed "Usage"
    (prefix p +:+ " " +:+ qualified_name c +:+ " " +:+ signature c) false in
  set_footer embed
    ("Category: " +:+ match cog_name c with
                      | Some n => str_or n "No Category"
                      | None => "No Category"
                      end).

Definition current (p : t) : Embed * t := (create_embed p (command p), p).

End CommandHelpPaginator.

(** ** The paginator a view holds *)

Inductive Paginator :=
| Main (p : MainHelpPaginator.t)
| Detail (p : CogHelpPaginator.t)
| Single (p : CommandHelpPaginator.t).

Definition base (p : Paginator) : BasePaginator.t :=
  match p with
  | Main q => MainHelpPaginator.base q
  | Detail q => CogHelpPaginator.base q
  | Single q => CommandHelpPaginator.base q
  end.

Definition with_base (p : Paginator) (b : BasePaginator.t) : Paginator :=
  match p with
  | Main q => Main (MainHelpPaginator.with_base q b)
  | Detail q => Detail (CogHelpPaginator.with_base q b)
  | Single q => Single (CommandHelpPaginator.with_base q b)
  end.

Definition n_pages (p : Paginator) : Z := BasePaginator.n_pages (base p).
Definition idx (p : Paginator) : Z := BasePaginator.idx (base p).
Definition pages (p : Paginator) : gmap Z Embed := BasePaginator.pages (base p).

(** The inherited cursor methods, dispatched on whichever paginator it is. *)
Definition previous (p : Paginator) : Paginator :=
  with_base p (BasePaginator.previous (base p)).
Definition next (p : Paginator) : Paginator :=
  with_base p (BasePaginator.next (base p)).
Definition first (p : Paginator) : Paginator :=
  with_base p (BasePaginator.first (base p)).
Definition last (p : Paginator) : Paginator :=
  with_base p (BasePaginator.last (base p)).
Definition is_first (p : Paginator) : bool := BasePaginator.is_first (base p).
Definition is_last (p : Paginator) : bool := BasePaginator.is_last (base p).

Definition current (p : Paginator) : result (Embed * Paginator) :=
  match p with
  | Main q => '(e, q') ← MainHelpPaginator.current q; mret (e, Main q')
  | Detail q => let '(e, q') := CogHelpPaginator.current q in mret (e, Detail q')
  | Single q => let '(e, q') := CommandHelpPaginator.current q in mret (e, Single q')
  end.

(** Cursor operations, as a caller may issue them in any order. *)
Inductive Op := OpPrevious | OpNext | OpFirst | OpLast.

Definition step (p : Paginator) (o : Op) : Paginator :=
  match o with
  | OpPrevious => previous p
  | OpNext => next p
  | OpFirst => first p
  | OpLast => last p
  end.

Definition run (p : Paginator) (ops : list Op) : Paginator := foldl step p ops.

(** The same with [current()] calls in between; a call that raises leaves
    the paginator as it was. *)
Inductive Call := Nav (o : Op) | Current.

Definition call (p : Paginator) (c : Call) : Paginator :=
  match c with
  | Nav o => step p o
  | Current => match current p with
               | Ok (_, p') => p'
               | Raise _ => p
               end
  end.

Definition calls (p : Paginator) (cs : list Call) : Paginator := foldl call p cs.

(** ** Selectors *)

Definition SELECT_MAX_VALUES : Z := 25.

(** What the selectors and the help command read from the invocation
    context: the bot's description and registries, the prefixes, the
    requester, and the framework's permission filter (with [sort=True]). *)
Record Context := {
  bot_description : string;
  ctx_prefix : string;
  clean_prefix : string;
  get_cog : string -> option Cog;
  get_command : string -> option Command;
  ctx_author : Z;
  filter_commands : list Command -> list Command
}.

Record SelectOption := {
  label : string;
  value : string;
  option_description : string
}.

(** The UI toolkit's [Select.add_option]: a selector takes at most 25
    options; adding one to a selector that has 25 raises [ValueError]. *)
Definition add_option (opts : list SelectOption) (o : SelectOption)
  : result (list SelectOption) :=
  if (25 <=? length opts)%nat then Raise ValueError
  else Ok (opts ++ [o])%list.

Module CategorySelect.

Record t := {
  placeholder : string;
  ctx : Context;
  mapping : Mapping;
  options : list SelectOption
}.

Definition populate (m : Mapping) : result (list SelectOption) :=
  opts ← add_option []
           {| label := "Kurisu Categories"; value := "main";
              option_description := "The index of Kurisu Categories." |};
  for_each (fun opts '(c, cmds) =>
              match cmds with
              | [] => Ok opts
              | _ => add_option opts
                       {| label := cog_qualified_name c;
                          value := cog_qualified_name c;
                          option_description := cog_description c |}
              end) opts m.

Definition init (m : Mapping) (c : Context) : result t :=
  opts ← populate m;
  mret {| placeholder := "Select a Category."; ctx := c; mapping := m;
          options := opts |}.

End CategorySelect.

Module CommandSelect.

Record t := {
  placeholder : string;
  ctx : Context;
  cog : Cog;
  commands : list Command;
  options : list SelectOption
}.

Definition populate (c : Cog) (cmds : list Command)
  : result (list SelectOption) :=
  opts ← add_option []
           {| label := cog_qualified_name c +:+ " commands"; value := "main";
              option_description := cog_qualified_name c +:+ " commands." |};
  for_each (fun opts cmd =>
              add_option opts
                {| label := name cmd; value := qualified_name cmd;
                   option_description := description cmd |}) opts cmds.

Definition init (c : Cog) (cmds : list Command) (cx : Context)
           (suffix : string) : result t :=
  opts ← populate c cmds;
  mret {| placeholder := "Select a command" +:+ suffix; ctx := cx; cog := c;
          commands := cmds; options := opts |}.

End CommandSelect.

Inductive Item :=
| CategoryItem (s : CategorySelect.t)
| CommandItem (s : CommandSelect.t).

(** ** [HelpView] *)

(** The [disabled] flag of each of the four navigation buttons. *)
Record Buttons := {
  first_page : bool;
  prev_page : bool;
  next_page : bool;
  last_page : bool
}.

Record HelpView := {
  paginator : Paginator;
  message : option nat;
  author : Z;
  buttons : Buttons;
  children : list Item;
  timeout : Z;
  stopped : bool
}.

(** What a handler asks of the chat platform. An edit carries the embed it
    shows, if any, and the button states of the view it attaches ([None]
    removes the controls). *)
Inductive Event :=
| SendMessage (content : string) (ephemeral : bool)
| Defer
| Edit (embed : option Embed) (view : option Buttons)
| Send (embed : Embed) (view : option Buttons).

(** A handler: it may raise, it changes the view in place, and it emits
    platform events. The view keeps what was done before a raise. *)
Definition Act (A : Type) : Type := HelpView -> result A * HelpView * list Event.

Global Instance Act_ret : MRet Act := fun _ a v => (Ok a, v, []).

Global Instance Act_bind : MBind Act := fun _ _ k m v =>
  match m v with
  | (Ok a, v', evs) =>
      let '(r, v'', evs') := k a v' in (r, v'', (evs ++ evs')%list)
  | (Raise e, v', evs) => (Raise e, v', evs)
  end.

Definition get : Act HelpView := fun v => (Ok v, v, []).
Definition modify (f : HelpView -> HelpView) : Act unit := fun v => (Ok tt, f v, []).
Definition emit (e : Event) : Act unit := fun v => (Ok tt, v, [e]).
Definition lift {A} (r : result A) : Act A := fun v => (r, v, []).

Definition set_paginator (p : Paginator) (v : HelpView) : HelpView :=
  {| paginator := p; message := message v; author := author v;
     buttons := buttons v; children := children v; timeout := timeout v;
     stopped := stopped v |}.

Definition set_buttons (b : Buttons) (v : HelpView) : HelpView :=
  {| paginator := paginator v; message := message v; author := author v;
     buttons := b; children := children v; timeout := timeout v;
     stopped := stopped v |}.

Definition set_message (m : option nat) (v : HelpView) : HelpView :=
  {| paginator := paginator v; message := m; author := author v;
     buttons := buttons v; children := children v; timeout := timeout v;
     stopped := stopped v |}.

(** The UI toolkit's [View.add_item]. A view has five rows; the five
    buttons the class declares fill the first one and a selector takes a row
    of its own, so a view that holds four selectors has no room for another
    and raises [ValueError]. [children] lists the selectors only. *)
Definition add_item (i : Item) (v : HelpView) : result HelpView :=
  if (4 <=? length (children v))%nat then Raise ValueError
  else Ok {| paginator := paginator v; message := message v;
             author := author v; buttons := buttons v;
             children := (children v ++ [i])%list;
             timeout := timeout v; stopped := stopped v |}.

Definition stop (v : HelpView) : HelpView :=
  {| paginator := paginator v; message := message v; author := author v;
     buttons := buttons v; children := children v; timeout := timeout v;
     stopped := true |}.

Definition set_first_page (d : bool) (b : Buttons) : Buttons :=
  {| first_page := d; prev_page := prev_page b; next_page := next_page b;
     last_page := last_page b |}.
Definition set_prev_page (d : bool) (b : Buttons) : Buttons :=
  {| first_page := first_page b; prev_page := d; next_page := next_page b;
     last_page := last_page b |}.
Definition set_next_page (d : bool) (b : Buttons) : Buttons :=
  {| first_page := first_page b; prev_page := prev_page b; next_page := d;
     last_page := last_page b |}.
Definition set_last_page (d : bool) (b : Buttons) : Buttons :=
  {| first_page := first_page b; prev_page := prev_page b;
     next_page := next_page b; last_page := d |}.

Definition on_buttons (f : Buttons -> Buttons) : Act unit :=
  modify (fun v => set_buttons (f (buttons v)) v).

Definition on_paginator (f : Paginator -> Paginator) : Act unit :=
  modify (fun v => set_paginator (f (paginator v)) v).

(** [self.paginator.current()], with the cache update it may make. *)
Definition current_page : Act Embed := fun v =>
  match current (paginator v) with
  | Ok (e, p') => (Ok e, set_paginator p' v, [])
  | Raise x => (Raise x, v, [])
  end.

(** The button states the decorators declare. *)
Definition declared_buttons : Buttons :=
  {| first_page := true; prev_page := true; next_page := false;
     last_page := false |}.

Definition reset_buttons : Act unit :=
  on_buttons (set_first_page true);;
  on_buttons (set_prev_page true);;
  on_buttons (set_next_page false);;
  on_buttons (set_last_page false).

Definition disable_buttons : Act unit :=
  on_buttons (set_first_page true);;
  on_buttons (set_prev_page true);;
  on_buttons (set_next_page true);;
  on_buttons (set_last_page true).

Definition pass : Act unit := mret tt.

(** The view a handler leaves behind. *)
Definition exec {A} (m : Act A) (v : HelpView) : HelpView := (m v).1.2.

(** The events a handler emits. *)
Definition trace {A} (m : Act A) (v : HelpView) : list Event := (m v).2.

(** An interaction delivered by the platform: who caused it, on which
    component, and for a selector the chosen values. *)
Inductive Component :=
| FirstPage | PrevPage | NextPage | LastPage | Remove
| Child (i : nat).

Record Interaction := {
  user : Z;
  component : Component;
  values : list string
}.

Module HelpView.

Definition init (p : Paginator) (a : Z) : HelpView :=
  let v := {| paginator := p; message := None; author := a;
              buttons := declared_buttons; children := []; timeout := 30;
              stopped := false |} in
  if n_pages (paginator v) =? 1 then exec disable_buttons v else v.

Definition on_timeout : Act unit :=
  v ← get;
  match message v with
  | Some _ => emit (Edit None None)
  | None => pass
  end;;
  modify stop.

Definition interaction_check (i : Interaction) : Act bool :=
  v ← get;
  if negb (user i =? author v)
  then emit (SendMessage "This view is not for you." true);; mret false
  else mret true.

(** [edit(embed=self.paginator.current(), view=self)], on the message
    or on the interaction response. *)
Definition edit_current : Act unit :=
  e ← current_page;
  v ← get;
  emit (Edit (Some e) (Some (buttons v))).

Definition change_paginator (p : Paginator) : Act unit :=
  modify (set_paginator p);;
  v ← get;
  (if 1 <? n_pages (paginator v) then reset_buttons else disable_buttons);;
  edit_current.

Definition first_page_callback : Act unit :=
  on_buttons (set_first_page true);;
  on_buttons (set_prev_page true);;
  on_buttons (set_next_page false);;
  on_buttons (set_last_page false);;
  on_paginator first;;
  edit_current.

Definition prev_page_callback : Act unit :=
  on_buttons (set_next_page false);;
  on_buttons (set_last_page false);;
  on_paginator previous;;
  v ← get;
  (if is_first (paginator v)
   then on_buttons (set_first_page true);; on_buttons (set_prev_page true)
   else pass);;
  edit_current.

Definition next_page_callback : Act unit :=
  on_buttons (set_first_page false);;
  on_buttons (set_prev_page false);;
  on_paginator next;;
  v ← get;
  (if is_last (paginator v)
   then on_buttons (set_next_page true);; on_buttons (set_last_page true)
   else pass);;
  edit_current.

Definition last_page_callback : Act unit :=
  on_buttons (set_first_page false);;
  on_buttons (set_prev_page false);;
  on_buttons (set_next_page true);;
  on_buttons (set_last_page true);;
  on_paginator last;;
  edit_current.

Definition remove : Act unit :=
  emit (Edit None None);;
  modify stop.

End HelpView.

(** [CategorySelect.callback] *)
Definition category_callback (s : CategorySelect.t) (i : Interaction) : Act unit :=
  emit Defer;;
  value ← lift (py_index (values i) 0);
  let cx := CategorySelect.ctx s in
  if String.eqb value "main"
  then
    p ← lift (MainHelpPaginator.init (CategorySelect.mapping s)
                (bot_description cx) (clean_prefix cx));
    HelpView.change_paginator (Main p)
  else
    match get_cog cx value with
    | Some cog =>
        cmds ← lift (dict_get (CategorySelect.mapping s) cog);
        HelpView.change_paginator
          (Detail (CogHelpPaginator.init cog cmds (clean_prefix cx)))
    | None => lift (Raise KeyError)
    end.

(** [CommandSelect.callback] *)
Definition command_callback (s : CommandSelect.t) (i : Interaction) : Act unit :=
  emit Defer;;
  value ← lift (py_index (values i) 0);
  let cx := CommandSelect.ctx s in
  if String.eqb value "main"
  then
    HelpView.change_paginator
      (Detail (CogHelpPaginator.init (CommandSelect.cog s)
                 (CommandSelect.commands s) (clean_prefix cx)))
  else
    match get_command cx value with
    | Some c =>
        HelpView.change_paginator
          (Single (CommandHelpPaginator.init c (clean_prefix cx)))
    | None => lift (Raise AttributeError)
    end.

Definition callback (i : Interaction) : Act unit :=
  match component i with
  | FirstPage => HelpView.first_page_callback
  | PrevPage => HelpView.prev_page_callback
  | NextPage => HelpView.next_page_callback
  | LastPage => HelpView.last_page_callback
  | Remove => HelpView.remove
  | Child k =>
      v ← get;
      match children v !! k with
      | Some (CategoryItem s) => category_callback s i
      | Some (CommandItem s) => command_callback s i
      | None => pass
      end
  end.

(** How the UI toolkit delivers an interaction to a view: the component's
    callback runs only when [interaction_check] answered [True]. *)
Definition dispatch (i : Interaction) : Act unit :=
  HelpView.interaction_check i ≫= λ allow : bool,
  if allow then callback i else pass.

(** A session receiving interactions one after the other. A callback that
    raises is reported by the toolkit and the session goes on with the view
    as the callback left it. *)
Definition deliver (st : HelpView * list Event) (i : Interaction)
  : HelpView * list Event :=
  let '(_, v', evs) := dispatch i st.1 in (v', (st.2 ++ evs)%list).

Definition session (v : HelpView) (ints : list Interaction)
  : HelpView * list Event :=
  foldl deliver (v, []) ints.

(** ** [KuriHelp] *)

(** [d[k] = v] on an insertion-ordered dict. *)
Fixpoint dict_set (m : Mapping) (k : Cog) (v : list Command) : Mapping :=
  match m with
  | [] => [(k, v)]
  | (k', v') :: m' =>
      if decide (k = k') then (k, v) :: m' else (k', v') :: dict_set m' k v
  end.

(** [name[0]]: the first character, for a name that starts in ASCII, and
    [IndexError] on the empty name. *)
Definition str_head (s : string) : result ascii :=
  match s with
  | EmptyString => Raise IndexError
  | String c _ => Ok c
  end.

(** [.upper()] on one character. Python maps by the Unicode tables; the
    model has the ASCII range, so what is proved of a label is proved for
    names whose first character is ASCII. *)
Definition upper (c : ascii) : string :=
  let n := nat_of_ascii c in
  String (if (97 <=? n)%nat && (n <=? 122)%nat then ascii_of_nat (n - 32) else c) "".

Module KuriHelp.

(** The filtered mapping [send_bot_help] builds: categories that are not
    [None] and keep at least one command after filtering. *)
Definition filtered_mapping (cx : Context)
           (mapping : list (option Cog * list Command)) : Mapping :=
  foldl (fun f_mapping '(c, cmds) =>
           match c with
           | Some cog =>
               match filter_commands cx cmds with
               | [] => f_mapping
               | f_cmds => dict_set f_mapping cog f_cmds
               end
           | None => f_mapping
           end) [] mapping.

(** The view with its first page fetched, and the message sent for it;
    [msg] is the message the channel returns. *)
Definition send_view (view : HelpView) (msg : nat)
  : result (HelpView * list Event) :=
  '(e, p') ← current (paginator view);
  let view := set_paginator p' view in
  mret (set_message (Some msg) view, [Send e (Some (buttons view))]).

Definition send_bot_help (cx : Context) (msg : nat)
           (mapping : list (option Cog * list Command))
  : result (HelpView * list Event) :=
  let f_mapping := filtered_mapping cx mapping in
  p ← MainHelpPaginator.init f_mapping (bot_description cx) (ctx_prefix cx);
  let view := HelpView.init (Main p) (ctx_author cx) in
  s ← CategorySelect.init f_mapping cx;
  view ← add_item (CategoryItem s) view;
  send_view view msg.

(** The selector for the chunk starting at [i], with its range suffix. *)
Definition chunk_select (cx : Context) (cog : Cog) (commands : list Command)
           (i : Z) : result CommandSelect.t :=
  let chunk := py_slice commands i (i + SELECT_MAX_VALUES - 1) in
  c0 ← py_index commands i;
  a ← str_head (name c0);
  c1 ← py_index (py_slice commands i (i + SELECT_MAX_VALUES - 2)) (-1);
  b ← str_head (name c1);
  CommandSelect.init cog chunk cx
    ("[" +:+ upper a +:+ "-" +:+ upper b +:+ "]").

(** The selectors [send_cog_help] constructs, in order, when the view has
    room for each. *)
Definition command_selects (cx : Context) (cog : Cog)
           (commands : list Command) : result (list CommandSelect.t) :=
  let len := Z.of_nat (length commands) in
  if SELECT_MAX_VALUES <? len
  then mapM (chunk_select cx cog commands)
            (py_range0 len (SELECT_MAX_VALUES - 1))
  else s ← CommandSelect.init cog commands cx ""; mret [s].

(** The loop of [send_cog_help]: each selector is constructed and added to
    the view before the next one is. *)
Fixpoint add_chunk_selects (cx : Context) (cog : Cog) (commands : list Command)
         (rng : list Z) (view : HelpView) : result HelpView :=
  match rng with
  | [] => Ok view
  | i :: rng' =>
      s ← chunk_select cx cog commands i;
      view' ← add_item (CommandItem s) view;
      add_chunk_selects cx cog commands rng' view'
  end.

(** [send_cog_help], given the category and its commands as
    [cog.get_commands()] lists them. *)
Definition send_cog_help (cx : Context) (msg : nat) (cog : Cog)
           (cog_commands : list Command) : result (HelpView * list Event) :=
  let commands := filter_commands cx cog_commands in
  let view := HelpView.init
                (Detail (CogHelpPaginator.init cog commands (ctx_prefix cx)))
                (ctx_author cx) in
  let len := Z.of_nat (length commands) in
  view ← (if SELECT_MAX_VALUES <? len
          then add_chunk_selects cx cog commands
                 (py_range0 len (SELECT_MAX_VALUES - 1)) view
          else s ← CommandSelect.init cog commands cx "";
               add_item (CommandItem s) view);
  send_view view msg.

Definition send_command_help (cx : Context) (c : Command) : list Event :=
  let '(e, _) := CommandHelpPaginator.current
                   (CommandHelpPaginator.init c (clean_prefix cx)) in
  [Send e None].

End KuriHelp.

(** A command group: how it reads as a category (its own qualified name and
    description), the category it belongs to, if any, and its subcommands. *)
Record Group := {
  group_category : Cog;
  group_cog : option Cog;
  group_commands : list Command
}.

(** [KuriHelp.send_group_help]. The selector is built on [group.cog], whose
    name [populate] reads: a group outside any category raises there. *)
Definition send_group_help (cx : Context) (msg : nat) (group : Group)
  : result (HelpView * list Event) :=
  let commands := filter_commands cx (group_commands group) in
  let view := HelpView.init
                (Detail (CogHelpPaginator.init (group_category group) commands
                           (clean_prefix cx)))
                (ctx_author cx) in
  match group_cog group with
  | None => Raise AttributeError
  | Some c =>
      s ← CommandSelect.init c commands cx "";
      view ← add_item (CommandItem s) view;
      KuriHelp.send_view view msg
  end.

(** [KuriHelp.send_error_message], with the bot's colour. *)
Definition send_error_message (bot_colour : Z) (error : string) : list Event :=
  [Send {| title := "Not Found"; embed_description := error;
           colour := bot_colour; fields := []; footer := "" |} None].

(** ** Sample objects *)

Definition mk_command (n : string) : Command :=
  {| name := n; qualified_name := n; signature := "<arg>"; short_doc := "";
     help := None; description := ""; aliases := []; cog_name := None |}.

Definition mk_cog (n : string) : Cog :=
  {| cog_qualified_name := n; cog_description := "About " +:+ n |}.

(** [n] commands in name order; the first 23 start with [m], the others
    with [n]. *)
Definition sample_commands (n : nat) : list Command :=
  map (fun k => mk_command ((if (k <? 23)%nat then "m" else "n") +:+ pretty k))
      (seq 0 n).

(** 21 categories, of which those numbered 0, 7 and 14 have no command. *)
Definition sample_mapping : Mapping :=
  map (fun k => (mk_cog (pretty k),
                 if (k mod 7 =? 0)%nat then [] else sample_commands 2))
      (seq 0 21).

(** The same as the framework hands it to [send_bot_help]. *)
Definition sample_bot_mapping : list (option Cog * list Command) :=
  map (λ x, (Some x.1, x.2)) sample_mapping.

Definition sample_context : Context :=
  {| bot_description := "Kurisu"; ctx_prefix := "."; clean_prefix := ".";
     get_cog := fun _ => None; get_command := fun _ => None;
     ctx_author := 7; filter_commands := fun cmds => cmds |}.

Definition sample_detail : Paginator :=
  Detail (CogHelpPaginator.init (mk_cog "Mod") (sample_commands 17) ".").

Definition sample_single : Paginator :=
  Single (CommandHelpPaginator.init (mk_command "ping") ".").

(** ** Vocabulary of the properties *)

(** The cursor points at a page. *)
Definition in_range (p : Paginator) : Prop := 0 ≤ idx p ≤ n_pages p - 1.

(** The notice a foreign interaction gets. *)
Definition notice : Event := SendMessage "This view is not for you." true.

(** The display of page [i] of a detail paginator over [cmds]: what
    [create_embed] builds at cursor [i] from [cmds[8i : 8i+8]]. *)
Definition detail_page (c : Cog) (cmds : list Command) (pre : string) (i : Z)
  : Embed :=
  let q := CogHelpPaginator.init c cmds pre in
  CogHelpPaginator.create_embed
    (CogHelpPaginator.with_base q
       (BasePaginator.set_idx (CogHelpPaginator.base q) i))
    (py_slice cmds (i * 8) (i * 8 + 8)).

(** The field a detail page shows for a command. *)
Definition command_entry (c : Command) : Field :=
  {| field_name := qualified_name c +:+ " " +:+ signature c;
     field_value := str_or (short_doc c) "No help for you.";
     inline := false |}.

(** A detail paginator over [cmds] whose cache holds, at each index it
    has, the display of that page. *)
Record detail_inv (c : Cog) (cmds : list Command) (pre : string)
       (q : CogHelpPaginator.t) : Prop := {
  detail_cog : CogHelpPaginator.cog q = c;
  detail_commands : CogHelpPaginator.commands q = cmds;
  detail_prefix : CogHelpPaginator.prefix q = pre;
  detail_n_pages :
    BasePaginator.n_pages (CogHelpPaginator.base q)
    = ceil_div (Z.of_nat (length cmds)) 8;
  detail_cache : ∀ i e,
    BasePaginator.pages (CogHelpPaginator.base q) !! i = Some e →
    e = detail_page c cmds pre i
}.

Definition detail_state (c : Cog) (cmds : list Command) (pre : string)
           (p : Paginator) : Prop :=
  ∃ q, p = Detail q ∧ detail_inv c cmds pre q.

(** The display of page [i] of an index paginator of [n] pages, built
    from the slice [s]. *)
Definition main_page (d pre : string) (n i : Z) (s : Mapping) : Embed :=
  MainHelpPaginator.create_embed
    {| MainHelpPaginator.base :=
         {| BasePaginator.n_pages := n; BasePaginator.idx := i;
            BasePaginator.pages := ∅ |};
       MainHelpPaginator.description := d;
       MainHelpPaginator.prefix := pre;
       MainHelpPaginator.slices := [] |} s.

(** The field an index page shows for a category. *)
Definition category_entry (entry : Cog * list Command) : Field :=
  {| field_name := "**" +:+ cog_qualified_name entry.1 +:+ "** ["
                        +:+ pretty (Z.of_nat (length entry.2)) +:+ "]";
     field_value := cog_description entry.1;
     inline := true |}.

(** The mapping cut into consecutive runs of nine entries. *)
Definition chunks (m : Mapping) : list Mapping :=
  map (λ j, take 9 (drop (9 * j) m))
      (seq 0 (Z.to_nat (ceil_div (Z.of_nat (length m)) 9))).

(** An index paginator with slices [sl] whose cache holds, at each index it
    has, the display of that slice. *)
Record main_inv (d pre : string) (n : Z) (sl : list Mapping)
       (q : MainHelpPaginator.t) : Prop := {
  main_description : MainHelpPaginator.description q = d;
  main_prefix : MainHelpPaginator.prefix q = pre;
  main_slices : MainHelpPaginator.slices q = sl;
  main_n_pages : BasePaginator.n_pages (MainHelpPaginator.base q) = n;
  main_cache : ∀ i e,
    BasePaginator.pages (MainHelpPaginator.base q) !! i = Some e →
    ∃ s, py_index sl i = Ok s ∧ e = main_page d pre n i s
}.

Definition main_state (d pre : string) (n : Z) (sl : list Mapping)
           (p : Paginator) : Prop :=
  ∃ q, p = Main q ∧ main_inv d pre n sl q.

(** A single-command paginator whose cache is empty. *)
Definition single_state (p : Paginator) : Prop :=
  ∃ q, p = Single q ∧ BasePaginator.pages (CommandHelpPaginator.base q) = ∅.

(** Every display in the cache counts as true when tested. *)
Definition cache_true (p : Paginator) : Prop :=
  ∀ i e, pages p !! i = Some e → embed_bool e = true.

(** What [send_bot_help] keeps of one entry of the framework's mapping. *)
Definition visible_entry (cx : Context) (x : option Cog * list Command)
  : option (Cog * list Command) :=
  match x.1 with
  | Some cog => match filter_commands cx x.2 with
                | [] => None
                | f_cmds => Some (cog, f_cmds)
                end
  | None => None
  end.

(** All four navigation buttons disabled. *)
Definition all_disabled : Buttons :=
  {| first_page := true; prev_page := true; next_page := true;
     last_page := true |}.

(** The option a category gets in the category selector. *)
Definition category_option (x : Cog * list Command) : SelectOption :=
  {| label := cog_qualified_name x.1; value := cog_qualified_name x.1;
     option_description := cog_description x.1 |}.

(** The synthetic first option of the category selector. *)
Definition index_option : SelectOption :=
  {| label := "Kurisu Categories"; value := "main";
     option_description := "The index of Kurisu Categories." |}.

(** The option a command gets in a command selector, and the synthetic first
    option of that selector. *)
Definition command_option (cmd : Command) : SelectOption :=
  {| label := name cmd; value := qualified_name cmd;
     option_description := description cmd |}.

Definition commands_option (c : Cog) : SelectOption :=
  {| label := cog_qualified_name c +:+ " commands"; value := "main";
     option_description := cog_qualified_name c +:+ " commands." |}.

(** The command selector over [cmds] the constructor returns when it does
    not raise, and the category selector over [m] likewise. *)
Definition command_select (c : Cog) (cmds : list Command) (cx : Context)
           (suffix : string) : CommandSelect.t :=
  {| CommandSelect.placeholder := "Select a command" +:+ suffix;
     CommandSelect.ctx := cx; CommandSelect.cog := c;
     CommandSelect.commands := cmds;
     CommandSelect.options := commands_option c :: map command_option cmds |}.

Definition category_select (m : Mapping) (cx : Context) : CategorySelect.t :=
  {| CategorySelect.placeholder := "Select a Category.";
     CategorySelect.ctx := cx; CategorySelect.mapping := m;
     CategorySelect.options :=
       index_option :: map category_option (filter (λ x, x.2 ≠ []) m) |}.

(** A name that starts with an ASCII character. *)
Definition ascii_initial (s : string) : Prop :=
  match s with
  | EmptyString => False
  | String c _ => (nat_of_ascii c < 128)%nat
  end.

(** The view with the selectors [sels] added after its children. *)
Definition with_selects (v : HelpView) (sels : list CommandSelect.t) : HelpView :=
  {| paginator := paginator v; message := message v; author := author v;
     buttons := buttons v;
     children := (children v ++ map CommandItem sels)%list;
     timeout := timeout v; stopped := stopped v |}.

(** What [send_cog_help] makes of the chunk starting at [i]: a selector
    over [commands[i : i+24]], labelled with the capital first letters of
    [commands[i]] and of [commands[min (i+22) (len-1)]]. *)
Definition chunk_selector (cx : Context) (cog : Cog) (cmds : list Command)
           (i : Z) (s : CommandSelect.t) : Prop :=
  ∃ c0 c1 a b,
    cmds !! Z.to_nat i = Some c0
    ∧ cmds !! Z.to_nat (Z.min (i + 22) (Z.of_nat (length cmds) - 1)) = Some c1
    ∧ str_head (name c0) = Ok a ∧ str_head (name c1) = Ok b
    ∧ s = command_select cog (py_slice cmds i (i + 24)) cx
            ("[" +:+ upper a +:+ "-" +:+ upper b +:+ "]").

(** The cursor operation behind each navigation button. *)
Definition button_of (o : Op) : Component :=
  match o with
  | OpFirst => FirstPage
  | OpPrevious => PrevPage
  | OpNext => NextPage
  | OpLast => LastPage
  end.

(** The requester pressing the button of [o]. *)
Definition press (a : Z) (o : Op) : Interaction :=
  {| user := a; component := button_of o; values := [] |}.

(** The buttons say where the cursor is: first/back are disabled exactly on
    the first page, next/last exactly on the last. *)
Definition buttons_mirror (v : HelpView) : Prop :=
  first_page (buttons v) = is_first (paginator v)
  ∧ prev_page (buttons v) = is_first (paginator v)
  ∧ next_page (buttons v) = is_last (paginator v)
  ∧ last_page (buttons v) = is_last (paginator v).

(** The buttons [change_paginator] sets for a paginator of [n] pages. *)
Definition swap_buttons (n : Z) : Buttons :=
  if 1 <? n then declared_buttons else all_disabled.

(** * Properties *)

(** ** The cursor *)

Lemma base_with_base p b : base (with_base p b) = b.
Proof. by destruct p. Qed.

Lemma n_pages_step p o : n_pages (step p o) = n_pages p.
Proof. by destruct o, p. Qed.

Lemma idx_step p o :
  idx (step p o) =
  match o with
  | OpPrevious => Z.max (idx p - 1) 0
  | OpNext => Z.min (idx p + 1) (n_pages p - 1)
  | OpFirst => 0
  | OpLast => n_pages p - 1
  end.
Proof. by destruct o, p. Qed.

Lemma n_pages_run p ops : n_pages (run p ops) = n_pages p.
Proof.
  revert p. induction ops as [|o ops IH]; intros p; [done|].
  cbn. unfold run in IH. by rewrite IH, n_pages_step.
Qed.

Lemma step_in_range p o : 1 ≤ n_pages p → in_range p → in_range (step p o).
Proof.
  unfold in_range. rewrite n_pages_step, idx_step. destruct o; lia.
Qed.

Lemma run_in_range p ops : 1 ≤ n_pages p → in_range p → in_range (run p ops).
Proof.
  revert p. induction ops as [|o ops IH]; intros p Hn Hr; [done|].
  apply IH; [by rewrite n_pages_step | by apply step_in_range].
Qed.

(** C1. A paginator constructed with at least one page (so with its cursor
    at 0) keeps its cursor within [0, n_pages - 1] under every finite
    sequence of previous/next/first/last; the page count does not move, and
    the operations clamp: previous at cursor 0 leaves 0, next at the last
    page leaves the last page. *)
Theorem cursor_stays_in_range (p : Paginator) (ops : list Op) :
  1 ≤ n_pages p → idx p = 0 →
  let q := run p ops in
  0 ≤ idx q ≤ n_pages p - 1
  ∧ n_pages q = n_pages p
  ∧ (idx q = 0 → idx (previous q) = 0)
  ∧ (idx q = n_pages p - 1 → idx (next q) = n_pages p - 1).
Proof.
  intros Hn H0 q.
  assert (Hq : in_range q) by (apply run_in_range; unfold in_range; lia).
  assert (Hnq : n_pages q = n_pages p) by apply n_pages_run.
  unfold in_range in Hq. rewrite Hnq in Hq.
  repeat split; try lia.
  - intros Hz. change (previous q) with (step q OpPrevious).
    rewrite idx_step. lia.
  - intros Hl. change (next q) with (step q OpNext).
    rewrite idx_step. lia.
Qed.

Lemma cursor_stays_in_range_witness :
  let q := run sample_detail [OpNext; OpNext; OpNext; OpPrevious; OpLast; OpNext] in
  0 ≤ idx q ≤ n_pages sample_detail - 1
  ∧ n_pages q = n_pages sample_detail
  ∧ (idx q = 0 → idx (previous q) = 0)
  ∧ (idx q = n_pages sample_detail - 1 → idx (next q) = n_pages sample_detail - 1).
Proof.
  apply (cursor_stays_in_range sample_detail); [by vm_compute | reflexivity].
Defined.

(** C9. [is_first] holds exactly at cursor 0 and [is_last] exactly at cursor
    [n_pages - 1]; a one-page paginator, in every cursor state it can reach
    from its construction, has both true (so they are never both false). *)
Theorem boundary_predicates (p : Paginator) :
  (is_first p = true ↔ idx p = 0)
  ∧ (is_last p = true ↔ idx p = n_pages p - 1)
  ∧ (n_pages p = 1 → idx p = 0 →
     ∀ ops, is_first (run p ops) = true ∧ is_last (run p ops) = true).
Proof.
  split; [apply Z.eqb_eq|]. split; [apply Z.eqb_eq|].
  intros Hn H0 ops.
  assert (Hr : in_range (run p ops)) by (apply run_in_range; unfold in_range; lia).
  unfold in_range in Hr. rewrite n_pages_run in Hr.
  unfold is_first, is_last, BasePaginator.is_first, BasePaginator.is_last.
  fold (idx (run p ops)). fold (n_pages (run p ops)). rewrite n_pages_run.
  split; apply Z.eqb_eq; lia.
Qed.

Lemma boundary_predicates_witness :
  is_first (run sample_single [OpNext; OpLast; OpPrevious]) = true
  ∧ is_last (run sample_single [OpNext; OpLast; OpPrevious]) = true.
Proof.
  destruct (boundary_predicates sample_single) as (_ & _ & H).
  apply H; reflexivity.
Defined.

(** C10. A paginator over an empty collection has no page: a detail
    paginator over an empty command list, like an index paginator over an
    empty mapping, has [n_pages = 0], and [last] or [next] then puts the
    cursor at -1, outside [0, n_pages - 1]. *)
Theorem empty_collection_cursor (c : Cog) (desc pre : string) :
  let p := Detail (CogHelpPaginator.init c [] pre) in
  (n_pages p = 0 ∧ idx p = 0
   ∧ idx (last p) = -1 ∧ idx (next p) = -1
   ∧ ¬ in_range p ∧ ¬ in_range (last p) ∧ ¬ in_range (next p))
  ∧ ∃ q, MainHelpPaginator.init [] desc pre = Ok q
         ∧ n_pages (Main q) = 0
         ∧ idx (last (Main q)) = -1 ∧ idx (next (Main q)) = -1.
Proof.
  intros p.
  assert (Hn : n_pages p = 0) by reflexivity.
  assert (H0 : idx p = 0) by reflexivity.
  assert (Hl : idx (last p) = -1) by reflexivity.
  assert (Hx : idx (next p) = -1) by reflexivity.
  assert (Hnl : n_pages (last p) = 0) by reflexivity.
  assert (Hnx : n_pages (next p) = 0) by reflexivity.
  split.
  - unfold in_range. rewrite Hn, H0, Hl, Hx, Hnl, Hnx. repeat split; lia.
  - eexists. repeat split.
Qed.

(** ** The navigation view *)

Lemma current_cursor p e p' :
  current p = Ok (e, p') → idx p' = idx p ∧ n_pages p' = n_pages p.
Proof.
  destruct p as [q|q|q]; cbn.
  - unfold MainHelpPaginator.current, MainHelpPaginator.build.
    destruct (BasePaginator.pages _ !! _) as [e0|]; [destruct (embed_bool e0)|];
      cbn; try (intros [= <- <-]; done);
      destruct (py_index _ _); cbn; intros [= <- <-]; done.
  - unfold CogHelpPaginator.current, CogHelpPaginator.build.
    destruct (BasePaginator.pages _ !! _) as [e0|]; [destruct (embed_bool e0)|];
      cbn; intros [= <- <-]; done.
  - intros [= <- <-]; done.
Qed.

(** Unfolds the plumbing of a handler down to its effect on the view. *)
Ltac run_act :=
  unfold exec, trace, pass, on_buttons, on_paginator, reset_buttons,
    disable_buttons, current_page, lift, emit, modify, get;
  unfold mbind, mret, Act_bind, Act_ret; cbn.

Lemma edit_current_buttons v : buttons (exec HelpView.edit_current v) = buttons v.
Proof.
  unfold HelpView.edit_current. run_act.
  by destruct (current (paginator v)) as [[e p']|].
Qed.

(** C6. [change_paginator] sets the four button states from the page count
    of the paginator it installs and from nothing else: with more than one
    page first/back are disabled and next/last enabled, with exactly one
    page all four are disabled. *)
Theorem change_paginator_buttons (p : Paginator) (v : HelpView) :
  let v' := exec (HelpView.change_paginator p) v in
  buttons v' =
    (if 1 <? n_pages p
     then {| first_page := true; prev_page := true;
             next_page := false; last_page := false |}
     else {| first_page := true; prev_page := true;
             next_page := true; last_page := true |})
  ∧ (1 < n_pages p →
     first_page (buttons v') = true ∧ prev_page (buttons v') = true
     ∧ next_page (buttons v') = false ∧ last_page (buttons v') = false)
  ∧ (n_pages p = 1 →
     first_page (buttons v') = true ∧ prev_page (buttons v') = true
     ∧ next_page (buttons v') = true ∧ last_page (buttons v') = true).
Proof.
  intros v'.
  assert (Hb : buttons v' =
    if 1 <? n_pages p
    then {| first_page := true; prev_page := true;
            next_page := false; last_page := false |}
    else {| first_page := true; prev_page := true;
            next_page := true; last_page := true |}).
  { subst v'. unfold HelpView.change_paginator, HelpView.edit_current.
    run_act. fold (n_pages p).
    destruct (1 <? n_pages p); run_act;
      by destruct (current p) as [[e p']|]. }
  split; [exact Hb|]. rewrite Hb. split.
  - intros H. apply Z.ltb_lt in H. by rewrite H.
  - intros H. by rewrite H.
Qed.

Lemma change_paginator_buttons_witness :
  let v := HelpView.init sample_single 7 in
  let v1 := exec (HelpView.change_paginator sample_detail) v in
  let v2 := exec (HelpView.change_paginator sample_single) v1 in
  (first_page (buttons v1) = true ∧ prev_page (buttons v1) = true
   ∧ next_page (buttons v1) = false ∧ last_page (buttons v1) = false)
  ∧ (first_page (buttons v2) = true ∧ prev_page (buttons v2) = true
     ∧ next_page (buttons v2) = true ∧ last_page (buttons v2) = true).
Proof.
  intros v v1 v2. split.
  - destruct (change_paginator_buttons sample_detail v) as (_ & H & _).
    apply H. by vm_compute.
  - destruct (change_paginator_buttons sample_single v1) as (_ & _ & H).
    apply H. reflexivity.
Defined.

(** C7. A view constructed on a one-page paginator has all four navigation
    buttons disabled; constructed on a paginator of more than one page it has
    first/back disabled and next/last enabled. *)
Theorem view_construction_buttons (p : Paginator) (a : Z) :
  let v := HelpView.init p a in
  (n_pages p = 1 →
   first_page (buttons v) = true ∧ prev_page (buttons v) = true
   ∧ next_page (buttons v) = true ∧ last_page (buttons v) = true)
  ∧ (1 < n_pages p →
     first_page (buttons v) = true ∧ prev_page (buttons v) = true
     ∧ next_page (buttons v) = false ∧ last_page (buttons v) = false).
Proof.
  intros v. subst v. unfold HelpView.init. run_act. split; intros H.
  - by rewrite H.
  - destruct (n_pages p =? 1) eqn:E; [apply Z.eqb_eq in E; lia | done].
Qed.

Lemma view_construction_buttons_witness :
  let v1 := HelpView.init sample_single 7 in
  let v2 := HelpView.init sample_detail 7 in
  (first_page (buttons v1) = true ∧ prev_page (buttons v1) = true
   ∧ next_page (buttons v1) = true ∧ last_page (buttons v1) = true)
  ∧ (first_page (buttons v2) = true ∧ prev_page (buttons v2) = true
     ∧ next_page (buttons v2) = false ∧ last_page (buttons v2) = false).
Proof.
  intros v1 v2. split.
  - destruct (view_construction_buttons sample_single 7) as (H & _).
    apply H. reflexivity.
  - destruct (view_construction_buttons sample_detail 7) as (_ & H).
    apply H. by vm_compute.
Defined.

(** ** Access control *)

Lemma dispatch_foreign v i :
  user i ≠ author v → dispatch i v = (Ok tt, v, [notice]).
Proof.
  intros H. unfold dispatch, HelpView.interaction_check. run_act.
  destruct (user i =? author v) eqn:E; [apply Z.eqb_eq in E; done|].
  reflexivity.
Qed.

Lemma session_foreign_from v evs ints :
  Forall (λ i, user i ≠ author v) ints →
  foldl deliver (v, evs) ints = (v, (evs ++ map (λ _, notice) ints)%list).
Proof.
  revert evs. induction ints as [|i ints IH]; intros evs Hall; cbn.
  - by rewrite app_nil_r.
  - inversion Hall as [|? ? Hi Hrest]; subst.
    unfold deliver at 2. cbn [fst snd]. rewrite (dispatch_foreign v i Hi).
    rewrite IH by done. by rewrite <- app_assoc.
Qed.

(** C5. Interactions from identities other than the requester the view is
    bound to, however many and in whatever order, each get the ephemeral
    notice and nothing else, and leave the whole view as it was: cursor,
    page cache, active paginator, buttons, children, message and lifecycle
    flag. *)
Theorem foreign_interactions_rejected (v : HelpView) (ints : list Interaction) :
  Forall (λ i, user i ≠ author v) ints →
  session v ints = (v, map (λ _, SendMessage "This view is not for you." true) ints).
Proof.
  intros Hall. unfold session. by rewrite session_foreign_from.
Qed.

Lemma foreign_interactions_rejected_witness :
  let v := HelpView.init sample_detail 7 in
  let ints := [ {| user := 8; component := NextPage; values := [] |};
                {| user := 9; component := Remove; values := [] |};
                {| user := 8; component := Child 0; values := ["main"] |} ] in
  session v ints = (v, map (λ _, SendMessage "This view is not for you." true) ints).
Proof.
  intros v ints. apply (foreign_interactions_rejected v ints).
  repeat constructor; by vm_compute.
Defined.

(** ** The page cache *)

Lemma app_not_empty_l (a b : string) : a ≠ "" → a +:+ b ≠ "".
Proof. by destruct a. Qed.

Lemma app_not_empty_r (a b : string) : b ≠ "" → a +:+ b ≠ "".
Proof. destruct a; [done | discriminate]. Qed.

Lemma embed_bool_title e : title e ≠ "" → embed_bool e = true.
Proof.
  unfold embed_bool, embed_len. destruct (title e); [done|]. by intros _.
Qed.

Lemma title_command_fields cmds e :
  title (foldl CogHelpPaginator.command_field e cmds) = title e.
Proof.
  revert e. induction cmds as [|c cmds IH]; intros e; [done|].
  cbn. by rewrite IH.
Qed.

Lemma fields_command_fields cmds e :
  fields (foldl CogHelpPaginator.command_field e cmds)
  = (fields e ++ map command_entry cmds)%list.
Proof.
  revert e. induction cmds as [|c cmds IH]; intros e; cbn.
  - by rewrite app_nil_r.
  - rewrite IH. cbn. by rewrite <- app_assoc.
Qed.

Lemma detail_create_embed_true q cmds :
  embed_bool (CogHelpPaginator.create_embed q cmds) = true.
Proof.
  apply embed_bool_title. unfold CogHelpPaginator.create_embed. cbn.
  rewrite title_command_fields.
  destruct (1 <? _); cbn; [apply app_not_empty_l|]; by apply app_not_empty_r.
Qed.

Lemma detail_create_embed_fields q cmds :
  fields (CogHelpPaginator.create_embed q cmds) = map command_entry cmds.
Proof.
  unfold CogHelpPaginator.create_embed. cbn. rewrite fields_command_fields.
  by destruct (1 <? _).
Qed.

Lemma detail_build_page c cmds pre q :
  detail_inv c cmds pre q →
  (CogHelpPaginator.build q).1
  = detail_page c cmds pre (BasePaginator.idx (CogHelpPaginator.base q)).
Proof.
  intros [Hc Hm Hp Hn _]. destruct q as [[n i pg] c' m' p']. cbn in *.
  by subst.
Qed.

Lemma detail_inv_init c cmds pre :
  detail_inv c cmds pre (CogHelpPaginator.init c cmds pre).
Proof. by split. Qed.

Lemma detail_inv_with_idx c cmds pre q i :
  detail_inv c cmds pre q →
  detail_inv c cmds pre
    (CogHelpPaginator.with_base q
       (BasePaginator.set_idx (CogHelpPaginator.base q) i)).
Proof. intros []. by split. Qed.

(** What one [current()] does on a detail paginator in a consistent state. *)
Lemma detail_current c cmds pre q :
  detail_inv c cmds pre q →
  let i := BasePaginator.idx (CogHelpPaginator.base q) in
  ∃ q', CogHelpPaginator.current q = (detail_page c cmds pre i, q')
        ∧ detail_inv c cmds pre q'
        ∧ BasePaginator.idx (CogHelpPaginator.base q') = i
        ∧ BasePaginator.pages (CogHelpPaginator.base q') !! i
          = Some (detail_page c cmds pre i)
        ∧ CogHelpPaginator.current q' = (detail_page c cmds pre i, q').
Proof.
  intros Hinv i.
  assert (Htrue : embed_bool (detail_page c cmds pre i) = true)
    by apply detail_create_embed_true.
  destruct (BasePaginator.pages (CogHelpPaginator.base q) !! i) as [e|] eqn:Hl.
  - assert (e = detail_page c cmds pre i) as -> by by eapply detail_cache.
    assert (Hcur : CogHelpPaginator.current q = (detail_page c cmds pre i, q)).
    { unfold CogHelpPaginator.current. fold i. by rewrite Hl, Htrue. }
    by exists q.
  - pose proof (detail_build_page _ _ _ _ Hinv) as Hb. fold i in Hb.
    exists (CogHelpPaginator.build q).2.
    assert (Hcur : CogHelpPaginator.current q
                   = (detail_page c cmds pre i, (CogHelpPaginator.build q).2)).
    { unfold CogHelpPaginator.current. fold i. rewrite Hl, <- Hb.
      by destruct (CogHelpPaginator.build q). }
    assert (Hl' : BasePaginator.pages
                    (CogHelpPaginator.base (CogHelpPaginator.build q).2) !! i
                  = Some (detail_page c cmds pre i)).
    { rewrite <- Hb. cbn. fold i. by rewrite lookup_insert_eq. }
    split_and!; try done.
    + destruct Hinv as [Hc Hm Hp Hn Hcache]. split; try done.
      intros j e. cbn. fold i. rewrite lookup_insert. case_decide.
      * intros [= <-]. subst j. by rewrite <- Hb.
      * apply Hcache.
    + unfold CogHelpPaginator.current.
      change (BasePaginator.idx (CogHelpPaginator.base (CogHelpPaginator.build q).2))
        with i.
      by rewrite Hl', Htrue.
Qed.

Lemma detail_state_step c cmds pre p o :
  detail_state c cmds pre p → detail_state c cmds pre (step p o).
Proof.
  intros (q & -> & Hinv).
  destruct o; eexists; (split; [reflexivity|]);
    by apply detail_inv_with_idx.
Qed.

Lemma detail_state_current c cmds pre p :
  detail_state c cmds pre p →
  ∃ p', current p = Ok (detail_page c cmds pre (idx p), p')
        ∧ detail_state c cmds pre p'
        ∧ idx p' = idx p
        ∧ pages p' !! idx p = Some (detail_page c cmds pre (idx p))
        ∧ current p' = Ok (detail_page c cmds pre (idx p), p').
Proof.
  intros (q & -> & Hinv).
  destruct (detail_current _ _ _ _ Hinv) as (q' & Hc & Hinv' & Hi & Hl & Hc').
  exists (Detail q'). cbn. rewrite Hc, Hc'. split_and!; try done.
  by exists q'.
Qed.

Lemma detail_state_call c cmds pre p k :
  detail_state c cmds pre p → detail_state c cmds pre (call p k).
Proof.
  intros H. destruct k as [o|]; [by apply detail_state_step|].
  destruct (detail_state_current _ _ _ _ H) as (p' & Hc & H' & _).
  cbn. by rewrite Hc.
Qed.

Lemma detail_state_calls c cmds pre p cs :
  detail_state c cmds pre p → detail_state c cmds pre (calls p cs).
Proof.
  revert p. induction cs as [|k cs IH]; intros p H; [done|].
  apply IH. by apply detail_state_call.
Qed.

Lemma call_cursor p k :
  1 ≤ n_pages p → in_range p →
  in_range (call p k) ∧ n_pages (call p k) = n_pages p.
Proof.
  intros Hn Hr. destruct k as [o|].
  - split; [by apply step_in_range | apply n_pages_step].
  - cbn. destruct (current p) as [[e p']|] eqn:Hc; [|done].
    apply current_cursor in Hc as [Hi Hp]. unfold in_range. rewrite Hi, Hp.
    done.
Qed.

Lemma calls_cursor p cs :
  1 ≤ n_pages p → in_range p →
  in_range (calls p cs) ∧ n_pages (calls p cs) = n_pages p.
Proof.
  revert p. induction cs as [|k cs IH]; intros p Hn Hr; [done|].
  destruct (call_cursor p k Hn Hr) as [Hr' Hn'].
  cbn. fold (calls (call p k) cs).
  destruct (IH (call p k)) as [Hr'' Hn'']; [lia | done |].
  split; [done | lia].
Qed.

(** C8. A detail paginator over 17 commands has ceil(17/8) = 3 pages, and
    whatever calls came before, [current()] at cursor [i] returns the display
    built from [commands[8i : 8i+8]], one field per command of that slice in
    order: [commands[0:8]] on page 0, [commands[8:16]] on page 1 and
    [commands[16:17]], a single command, on page 2. *)
Theorem detail_pages_of_17 (c : Cog) (cmds : list Command) (pre : string)
        (cs : list Call) :
  length cmds = 17%nat →
  let p0 := Detail (CogHelpPaginator.init c cmds pre) in
  let p := calls p0 cs in
  n_pages p0 = 3
  ∧ 0 ≤ idx p ≤ 2
  ∧ (∃ e p', current p = Ok (e, p')
        ∧ e = detail_page c cmds pre (idx p)
        ∧ fields e
          = map command_entry (py_slice cmds (8 * idx p) (8 * idx p + 8)))
  ∧ py_slice cmds (8 * 0) (8 * 0 + 8) = take 8 cmds
  ∧ py_slice cmds (8 * 1) (8 * 1 + 8) = take 8 (drop 8 cmds)
  ∧ py_slice cmds (8 * 2) (8 * 2 + 8) = py_slice cmds 16 17
  ∧ py_slice cmds 16 17 = drop 16 cmds
  ∧ length (drop 16 cmds) = 1%nat.
Proof.
  intros Hlen p0 p.
  assert (Hn : n_pages p0 = 3).
  { unfold p0, n_pages. cbn. by rewrite Hlen. }
  assert (Hst : detail_state c cmds pre p).
  { apply detail_state_calls. eexists. split; [done|]. apply detail_inv_init. }
  destruct (calls_cursor p0 cs) as [Hr Hnp];
    [rewrite Hn; lia | unfold in_range; rewrite Hn; cbn; lia |].
  fold p in Hr, Hnp. unfold in_range in Hr. rewrite Hnp, Hn in Hr.
  destruct (detail_state_current _ _ _ _ Hst) as (p' & Hc & _).
  split; [done|]. split; [lia|]. split.
  { exists (detail_page c cmds pre (idx p)), p'. split_and!; try done.
    unfold detail_page. rewrite detail_create_embed_fields.
    by replace (idx p * 8) with (8 * idx p) by lia. }
  do 17 (destruct cmds as [|? cmds]; [done|]).
  destruct cmds; done.
Qed.

Lemma detail_pages_of_17_witness :
  let cmds := sample_commands 17 in
  let p0 := Detail (CogHelpPaginator.init (mk_cog "Mod") cmds ".") in
  let p := calls p0 [Current; Nav OpNext; Current; Nav OpLast; Current;
                     Nav OpPrevious] in
  n_pages p0 = 3
  ∧ 0 ≤ idx p ≤ 2
  ∧ (∃ e p', current p = Ok (e, p')
        ∧ e = detail_page (mk_cog "Mod") cmds "." (idx p)
        ∧ fields e
          = map command_entry (py_slice cmds (8 * idx p) (8 * idx p + 8)))
  ∧ py_slice cmds (8 * 0) (8 * 0 + 8) = take 8 cmds
  ∧ py_slice cmds (8 * 1) (8 * 1 + 8) = take 8 (drop 8 cmds)
  ∧ py_slice cmds (8 * 2) (8 * 2 + 8) = py_slice cmds 16 17
  ∧ py_slice cmds 16 17 = drop 16 cmds
  ∧ length (drop 16 cmds) = 1%nat.
Proof.
  apply (detail_pages_of_17 (mk_cog "Mod") (sample_commands 17) ".").
  reflexivity.
Defined.

(** *** The index paginator *)

Lemma title_category_fields s e :
  title (foldl MainHelpPaginator.category_field e s) = title e.
Proof.
  revert e. induction s as [|[c cmds] s IH]; intros e; [done|].
  cbn. rewrite IH. by destruct cmds.
Qed.

Lemma fields_category_fields s e :
  fields (foldl MainHelpPaginator.category_field e s)
  = (fields e ++ map category_entry (filter (λ x, x.2 ≠ []) s))%list.
Proof.
  revert e. induction s as [|[c cmds] s IH]; intros e.
  - cbn. by rewrite app_nil_r.
  - change (foldl MainHelpPaginator.category_field e ((c, cmds) :: s))
      with (foldl MainHelpPaginator.category_field
              (MainHelpPaginator.category_field e (c, cmds)) s).
    rewrite IH, filter_cons. destruct cmds as [|c0 cmds].
    + by rewrite decide_False by (by intros ?).
    + rewrite decide_True by done.
      unfold MainHelpPaginator.category_field, add_field. cbn [fields].
      by rewrite <- app_assoc.
Qed.

Lemma main_create_embed_true q s :
  embed_bool (MainHelpPaginator.create_embed q s) = true.
Proof.
  apply embed_bool_title. unfold MainHelpPaginator.create_embed.
  rewrite title_category_fields. by destruct (1 <? _).
Qed.

Lemma main_create_embed_fields q s :
  fields (MainHelpPaginator.create_embed q s)
  = map category_entry (filter (λ x, x.2 ≠ []) s).
Proof.
  unfold MainHelpPaginator.create_embed. rewrite fields_category_fields.
  by destruct (1 <? _).
Qed.

Lemma main_create_embed_page d pre n sl q s :
  main_inv d pre n sl q →
  MainHelpPaginator.create_embed q s
  = main_page d pre n (BasePaginator.idx (MainHelpPaginator.base q)) s.
Proof.
  intros [Hd Hp Hs Hn _]. destruct q as [[n' i pg] d' p' sl']. cbn in *.
  by subst.
Qed.

Lemma main_inv_with_idx d pre n sl q i :
  main_inv d pre n sl q →
  main_inv d pre n sl
    (MainHelpPaginator.with_base q
       (BasePaginator.set_idx (MainHelpPaginator.base q) i)).
Proof. intros []. by split. Qed.

(** What one [current()] does on an index paginator in a consistent state:
    it raises exactly when the cursor has no slice, and otherwise shows the
    display of the cursor's slice, which is then in the cache. *)
Lemma main_current d pre n sl q :
  main_inv d pre n sl q →
  let i := BasePaginator.idx (MainHelpPaginator.base q) in
  match py_index sl i with
  | Ok s =>
      ∃ q', MainHelpPaginator.current q = Ok (main_page d pre n i s, q')
            ∧ main_inv d pre n sl q'
            ∧ BasePaginator.idx (MainHelpPaginator.base q') = i
            ∧ BasePaginator.pages (MainHelpPaginator.base q') !! i
              = Some (main_page d pre n i s)
            ∧ MainHelpPaginator.current q' = Ok (main_page d pre n i s, q')
  | Raise x => MainHelpPaginator.current q = Raise x
  end.
Proof.
  intros Hinv i.
  destruct (BasePaginator.pages (MainHelpPaginator.base q) !! i) as [e|] eqn:Hl.
  - destruct (main_cache _ _ _ _ _ Hinv _ _ Hl) as (s & Hs & ->). rewrite Hs.
    assert (Htrue : embed_bool (main_page d pre n i s) = true)
      by apply main_create_embed_true.
    assert (Hcur : MainHelpPaginator.current q = Ok (main_page d pre n i s, q)).
    { unfold MainHelpPaginator.current. fold i. by rewrite Hl, Htrue. }
    by exists q.
  - destruct (py_index sl i) as [s|x] eqn:Hs.
    + assert (Htrue : embed_bool (main_page d pre n i s) = true)
        by apply main_create_embed_true.
      pose proof (main_create_embed_page _ _ _ _ _ s Hinv) as Hb. fold i in Hb.
      set (q' := MainHelpPaginator.with_base q
                   (BasePaginator.store (MainHelpPaginator.base q)
                      (main_page d pre n i s))).
      assert (Hcur : MainHelpPaginator.current q
                     = Ok (main_page d pre n i s, q')).
      { unfold MainHelpPaginator.current, MainHelpPaginator.build. fold i.
        rewrite Hl. destruct Hinv as [_ _ -> _ _]. rewrite Hs. cbn.
        by rewrite Hb. }
      assert (Hl' : BasePaginator.pages (MainHelpPaginator.base q') !! i
                    = Some (main_page d pre n i s)).
      { cbn. fold i. by rewrite lookup_insert_eq. }
      exists q'. split_and!; try done.
      * destruct Hinv as [Hd Hp Hsl Hn Hcache]. split; try done.
        intros j e. cbn. fold i. rewrite lookup_insert. case_decide.
        -- intros [= <-]. subst j. by exists s.
        -- apply Hcache.
      * unfold MainHelpPaginator.current.
        change (BasePaginator.idx (MainHelpPaginator.base q')) with i.
        by rewrite Hl', Htrue.
    + unfold MainHelpPaginator.current, MainHelpPaginator.build. fold i.
      rewrite Hl. destruct Hinv as [_ _ -> _ _]. by rewrite Hs.
Qed.

Lemma main_state_step d pre n sl p o :
  main_state d pre n sl p → main_state d pre n sl (step p o).
Proof.
  intros (q & -> & Hinv).
  destruct o; eexists; (split; [reflexivity|]);
    by apply main_inv_with_idx.
Qed.

Lemma main_state_current d pre n sl p :
  main_state d pre n sl p →
  match py_index sl (idx p) with
  | Ok s =>
      ∃ p', current p = Ok (main_page d pre n (idx p) s, p')
            ∧ main_state d pre n sl p'
            ∧ idx p' = idx p
            ∧ pages p' !! idx p = Some (main_page d pre n (idx p) s)
            ∧ current p' = Ok (main_page d pre n (idx p) s, p')
  | Raise x => current p = Raise x
  end.
Proof.
  intros (q & -> & Hinv). pose proof (main_current _ _ _ _ _ Hinv) as H.
  cbn in *. destruct (py_index sl _) as [s|x].
  - destruct H as (q' & Hc & Hinv' & Hi & Hl & Hc').
    exists (Main q'). cbn. rewrite Hc, Hc'. split_and!; try done.
    by exists q'.
  - by rewrite H.
Qed.

Lemma main_state_call d pre n sl p k :
  main_state d pre n sl p → main_state d pre n sl (call p k).
Proof.
  intros H. destruct k as [o|]; [by apply main_state_step|].
  pose proof (main_state_current _ _ _ _ _ H) as Hc. cbn.
  destruct (py_index sl (idx p)) as [s|x].
  - destruct Hc as (p' & -> & H' & _). done.
  - by rewrite Hc.
Qed.

Lemma main_state_calls d pre n sl p cs :
  main_state d pre n sl p → main_state d pre n sl (calls p cs).
Proof.
  revert p. induction cs as [|k cs IH]; intros p H; [done|].
  apply IH. by apply main_state_call.
Qed.

(** *** What the constructor slices *)

Ltac run_result := unfold mbind, mret, result_bind, result_ret; cbn.

Lemma dict_get_elem (m : Mapping) k v :
  dict_wf m → (k, v) ∈ m → dict_get m k = Ok v.
Proof.
  unfold dict_wf. induction m as [|[k' v'] m IH]; intros Hwf Hin.
  - by apply not_elem_of_nil in Hin.
  - cbn in Hwf. apply NoDup_cons in Hwf as [Hk' Hwf]. cbn.
    apply elem_of_cons in Hin as [[= -> ->]|Hin].
    + by rewrite decide_True.
    + rewrite decide_False; [by apply IH|].
      intros ->. apply Hk'. apply list_elem_of_fmap. by exists (k', v).
Qed.

Lemma dict_binding_unique (m : Mapping) k v v' :
  dict_wf m → (k, v) ∈ m → (k, v') ∈ m → v = v'.
Proof.
  intros Hwf H H'. apply (dict_get_elem m k v Hwf) in H.
  apply (dict_get_elem m k v' Hwf) in H'. congruence.
Qed.

Lemma slice_of_items (m xs : Mapping) :
  dict_wf m → xs ⊆ m → MainHelpPaginator.slice_of m (xs.*1) = Ok xs.
Proof.
  intros Hwf. unfold MainHelpPaginator.slice_of.
  induction xs as [|[k v] xs IH]; intros Hsub; [done|].
  cbn. run_result.
  rewrite (dict_get_elem m k v Hwf) by (apply Hsub; left).
  unfold mbind, mret, result_bind, result_ret in IH. rewrite IH; [done|].
  intros x Hx. apply Hsub. by right.
Qed.

Lemma build_slices_chunks (m xs : Mapping) rng :
  dict_wf m → xs ⊆ m →
  MainHelpPaginator.build_slices m rng (xs.*1)
  = Ok (map (λ j, take 9 (drop (9 * j) xs)) (seq 0 (length rng))).
Proof.
  intros Hwf. revert xs. induction rng as [|r rng IH]; intros xs Hsub; [done|].
  cbn [MainHelpPaginator.build_slices islice].
  change (Z.to_nat MainHelpPaginator.categories_per_page) with 9%nat.
  rewrite <- fmap_take, <- fmap_drop. run_result.
  rewrite slice_of_items by (done || by etrans; [apply subseteq_take|]).
  rewrite IH by (by etrans; [apply subseteq_drop|]).
  f_equal. f_equal.
  rewrite <- seq_shift, map_map. apply map_ext. intros j.
  rewrite drop_drop. do 2 f_equal. lia.
Qed.

Lemma length_py_range0 stop step :
  length (py_range0 stop step) = Z.to_nat (ceil_div stop step).
Proof. unfold py_range0. by rewrite length_map, length_seq. Qed.

(** The constructor never raises on a well-formed mapping, and its slices
    are the consecutive runs of nine entries. *)
Lemma main_init (m : Mapping) d pre :
  dict_wf m →
  MainHelpPaginator.init m d pre
  = Ok {| MainHelpPaginator.base :=
            BasePaginator.init (ceil_div (Z.of_nat (length m)) 9);
          MainHelpPaginator.description := d;
          MainHelpPaginator.prefix := pre;
          MainHelpPaginator.slices := chunks m |}.
Proof.
  intros Hwf. unfold MainHelpPaginator.init.
  rewrite build_slices_chunks by done. by rewrite length_py_range0.
Qed.

Lemma main_state_init (m : Mapping) d pre q :
  dict_wf m → MainHelpPaginator.init m d pre = Ok q →
  main_state d pre (ceil_div (Z.of_nat (length m)) 9) (chunks m) (Main q)
  ∧ idx (Main q) = 0.
Proof.
  intros Hwf. rewrite main_init by done. intros [= <-].
  split; [|done]. eexists. split; [done|]. by split.
Qed.

Lemma py_index_lookup {A} (l : list A) i x :
  0 ≤ i → l !! Z.to_nat i = Some x → py_index l i = Ok x.
Proof.
  intros Hi Hl. unfold py_index.
  pose proof (lookup_lt_Some _ _ _ Hl).
  rewrite (proj2 (Z.ltb_ge i 0)) by lia.
  rewrite (proj2 (Z.ltb_ge i 0)) by lia.
  rewrite (proj2 (Z.leb_gt _ _)) by lia. cbn. by rewrite Hl.
Qed.

Lemma py_slice_nonneg {A} (l : list A) lo hi :
  0 ≤ lo ≤ hi →
  py_slice l lo hi = take (Z.to_nat (hi - lo)) (drop (Z.to_nat lo) l).
Proof.
  intros H. unfold py_slice, slice_bound.
  rewrite (proj2 (Z.ltb_ge lo 0)), (proj2 (Z.ltb_ge hi 0)) by lia.
  destruct (decide (lo ≤ Z.of_nat (length l))) as [Hlo|Hlo].
  - rewrite (Z.min_l lo) by done.
    destruct (decide (hi ≤ Z.of_nat (length l))) as [Hhi|Hhi].
    + by rewrite Z.min_l.
    + rewrite Z.min_r by lia.
      rewrite !take_ge; [done | | ]; rewrite length_drop; lia.
  - rewrite !drop_ge by lia. by rewrite !take_nil.
Qed.

Lemma chunks_index (m : Mapping) i :
  0 ≤ i < ceil_div (Z.of_nat (length m)) 9 →
  py_index (chunks m) i = Ok (py_slice m (9 * i) (9 * i + 9)).
Proof.
  intros Hi. apply py_index_lookup; [lia|]. unfold chunks.
  change (map ?f ?l) with (f <$> l). rewrite list_lookup_fmap.
  rewrite lookup_seq_lt by lia. cbn [fmap option_fmap option_map].
  rewrite py_slice_nonneg by lia. do 3 f_equal; lia.
Qed.

Lemma ceil_div_positive n k : 0 < k → 0 < n → 1 ≤ ceil_div n k.
Proof.
  intros Hk Hn. unfold ceil_div.
  assert ((- n) / k < 0); [|lia]. apply Z.div_lt_upper_bound; lia.
Qed.


Lemma length_filter_commands (m : Mapping) :
  (length (filter (λ x, x.2 ≠ []) m) + length (filter (λ x, x.2 = []) m))%nat
  = length m.
Proof.
  induction m as [|[c cmds] m IH]; [done|].
  rewrite !filter_cons. destruct cmds as [|c0 cmds].
  - rewrite decide_False, decide_True by (done || by intros ?). cbn.
    cbn in IH. lia.
  - rewrite decide_True, decide_False by done. cbn. cbn in IH. lia.
Qed.

(** What [current()] shows on an index paginator over a non-empty,
    well-formed mapping, after any calls. *)
Lemma main_calls_current (m : Mapping) d pre q cs :
  dict_wf m → m ≠ [] → MainHelpPaginator.init m d pre = Ok q →
  let n := ceil_div (Z.of_nat (length m)) 9 in
  let p := calls (Main q) cs in
  let e := main_page d pre n (idx p) (py_slice m (9 * idx p) (9 * idx p + 9)) in
  n_pages (Main q) = n ∧ 0 ≤ idx p ≤ n - 1
  ∧ ∃ p', current p = Ok (e, p')
          ∧ pages p' !! idx p = Some e
          ∧ current p' = Ok (e, p').
Proof.
  intros Hwf Hne Hinit n p e.
  destruct (main_state_init m d pre q Hwf Hinit) as [Hst H0].
  assert (Hn : n_pages (Main q) = n).
  { destruct Hst as (q0 & [= <-] & Hinv). by destruct Hinv. }
  assert (1 ≤ n).
  { apply ceil_div_positive; [done|]. destruct m; [done | cbn; lia]. }
  destruct (calls_cursor (Main q) cs) as [Hr Hnp];
    [lia | unfold in_range; lia |].
  fold p in Hr, Hnp. unfold in_range in Hr. rewrite Hnp, Hn in Hr.
  split; [done|]. split; [done|].
  pose proof (main_state_current _ _ _ _ _
                (main_state_calls _ _ _ _ _ cs Hst)) as Hc.
  fold p in Hc. rewrite chunks_index in Hc by (fold n; lia).
  destruct Hc as (p' & Hc & _ & _ & Hl & Hc'). by exists p'.
Qed.

(** [send_bot_help] hands the paginator a mapping from which the
    categories without visible commands are gone. *)
Lemma dict_set_commands (m : Mapping) k v :
  Forall (λ x, x.2 ≠ []) m → v ≠ [] → Forall (λ x, x.2 ≠ []) (dict_set m k v).
Proof.
  intros Hm Hv. induction Hm as [|[k' v'] m Hx Hm IH]; cbn.
  - by repeat constructor.
  - case_decide; constructor; done.
Qed.

Lemma filtered_mapping_commands cx mapping :
  Forall (λ x, x.2 ≠ []) (KuriHelp.filtered_mapping cx mapping).
Proof.
  unfold KuriHelp.filtered_mapping.
  generalize (Forall_nil_2 (λ x : Cog * list Command, x.2 ≠ [])).
  generalize (@nil (Cog * list Command)).
  induction mapping as [|[[c|] cmds] mapping IH]; intros acc Hacc; cbn;
    [done| |by apply IH].
  destruct (filter_commands cx cmds) as [|c0 f_cmds] eqn:E; apply IH;
    [done|]. by apply dict_set_commands.
Qed.

(** *** The single-command paginator *)

Lemma single_state_call p k : single_state p → single_state (call p k).
Proof.
  intros (q & -> & Hp). destruct k as [[]|]; by eexists.
Qed.

Lemma single_state_calls p cs : single_state p → single_state (calls p cs).
Proof.
  revert p. induction cs as [|k cs IH]; intros p H; [done|].
  apply IH. by apply single_state_call.
Qed.

(** A display that is in the cache at the cursor and tests true is what
    [current()] returns, whatever else the paginator holds: the commands,
    slices, texts and page count it would build a page from are not read. *)
Lemma detail_cache_hit (q : CogHelpPaginator.t) e :
  BasePaginator.pages (CogHelpPaginator.base q)
    !! BasePaginator.idx (CogHelpPaginator.base q) = Some e →
  embed_bool e = true →
  CogHelpPaginator.current q = (e, q).
Proof. intros Hl He. unfold CogHelpPaginator.current. by rewrite Hl, He. Qed.

Lemma main_cache_hit (q : MainHelpPaginator.t) e :
  BasePaginator.pages (MainHelpPaginator.base q)
    !! BasePaginator.idx (MainHelpPaginator.base q) = Some e →
  embed_bool e = true →
  MainHelpPaginator.current q = Ok (e, q).
Proof. intros Hl He. unfold MainHelpPaginator.current. by rewrite Hl, He. Qed.

(** C4, as the code has it. The detail paginator and the index paginator
    (over a non-empty mapping) cache: after any calls, [current()] returns
    the display built from the cursor's slice, that display is then in the
    cache at the cursor, and a second [current()] returns it from there
    without changing anything. That second result is read from the cache
    and not built: any paginator of the kind with the same cache and cursor
    returns the very same display and stays as it is, whatever commands,
    slices, texts or page count it holds, so whatever a build would give.
    The single-command paginator has no cache: [current()] builds the
    display each time, leaves the paginator as it was (so a second call
    returns equal content) and the cache stays empty. *)
Theorem current_cached_per_kind :
  (∀ c cmds pre cs,
     let p := calls (Detail (CogHelpPaginator.init c cmds pre)) cs in
     ∃ e p', current p = Ok (e, p')
             ∧ e = detail_page c cmds pre (idx p)
             ∧ pages p' !! idx p = Some e
             ∧ current p' = Ok (e, p')
             ∧ ∀ q : CogHelpPaginator.t,
                 BasePaginator.pages (CogHelpPaginator.base q) = pages p' →
                 BasePaginator.idx (CogHelpPaginator.base q) = idx p →
                 current (Detail q) = Ok (e, Detail q))
  ∧ (∀ (m : Mapping) d pre cs,
       dict_wf m → m ≠ [] →
       ∃ q0, MainHelpPaginator.init m d pre = Ok q0
            ∧ let p := calls (Main q0) cs in
              ∃ e p', current p = Ok (e, p')
                      ∧ e = main_page d pre (ceil_div (Z.of_nat (length m)) 9)
                              (idx p)
                              (py_slice m (9 * idx p) (9 * idx p + 9))
                      ∧ pages p' !! idx p = Some e
                      ∧ current p' = Ok (e, p')
                      ∧ ∀ q : MainHelpPaginator.t,
                          BasePaginator.pages (MainHelpPaginator.base q)
                          = pages p' →
                          BasePaginator.idx (MainHelpPaginator.base q) = idx p →
                          current (Main q) = Ok (e, Main q))
  ∧ (∀ c pre cs,
       let p := calls (Single (CommandHelpPaginator.init c pre)) cs in
       ∃ e, current p = Ok (e, p) ∧ pages p = ∅).
Proof.
  split_and!.
  - intros c cmds pre cs p.
    assert (Hst : detail_state c cmds pre p).
    { apply detail_state_calls. eexists. split; [done|]. apply detail_inv_init. }
    destruct (detail_state_current _ _ _ _ Hst) as (p' & Hc & _ & _ & Hl & Hc').
    eexists _, p'. split_and!; try done.
    intros q Hp Hi. cbn [current].
    rewrite (detail_cache_hit q (detail_page c cmds pre (idx p))); [done| |].
    + by rewrite Hp, Hi.
    + apply detail_create_embed_true.
  - intros m d pre cs Hwf Hne. eexists. split; [by apply main_init|].
    match goal with |- context [Main ?r] => set (q0 := r) in * end.
    destruct (main_calls_current m d pre q0 cs Hwf Hne (main_init m d pre Hwf))
      as (_ & _ & p' & Hc & Hl & Hc').
    cbn zeta. eexists _, p'. split_and!; try done.
    intros q Hp Hi. cbn [current].
    rewrite (main_cache_hit q _ ltac:(by rewrite Hp, Hi)
               (main_create_embed_true _ _)).
    done.
  - intros c pre cs p.
    destruct (single_state_calls (Single (CommandHelpPaginator.init c pre)) cs)
      as (q & Hq & Hp); [by eexists|].
    fold p in Hq. rewrite Hq. by eexists.
Qed.

Lemma current_cached_per_kind_witness :
  ∃ q0, MainHelpPaginator.init sample_mapping "Kurisu" "." = Ok q0
       ∧ let p := calls (Main q0) [Nav OpNext; Current; Nav OpLast] in
         ∃ e p', current p = Ok (e, p')
                 ∧ e = main_page "Kurisu" "."
                         (ceil_div (Z.of_nat (length sample_mapping)) 9)
                         (idx p)
                         (py_slice sample_mapping (9 * idx p) (9 * idx p + 9))
                 ∧ pages p' !! idx p = Some e
                 ∧ current p' = Ok (e, p')
                 ∧ ∀ q : MainHelpPaginator.t,
                     BasePaginator.pages (MainHelpPaginator.base q) = pages p' →
                     BasePaginator.idx (MainHelpPaginator.base q) = idx p →
                     current (Main q) = Ok (e, Main q).
Proof.
  destruct current_cached_per_kind as (_ & H & _).
  apply (H sample_mapping "Kurisu" ".").
  - apply (bool_decide_unpack _). by vm_compute.
  - discriminate.
Defined.

(** C4, as stated, fails for the single-command kind: after a first
    [current()] its display is not in the page cache. *)
Lemma current_cached_per_kind_counterexample :
  ¬ ∃ e p', current sample_single = Ok (e, p')
            ∧ pages p' !! idx sample_single = Some e.
Proof.
  intros (e & p' & Hc & Hl). cbn in Hc. injection Hc as <- <-.
  vm_compute in Hl. discriminate.
Qed.

(** ** Selector splitting *)

Lemma add_option_ok opts o :
  (length opts < 25)%nat → add_option opts o = Ok (opts ++ [o])%list.
Proof.
  intros H. unfold add_option. destruct (Nat.leb_spec 25 (length opts)); [lia|done].
Qed.

Lemma add_option_raise opts o :
  (25 ≤ length opts)%nat → add_option opts o = Raise ValueError.
Proof.
  intros H. unfold add_option. destruct (Nat.leb_spec 25 (length opts)); [done|lia].
Qed.

(** Adding options one by one works until the selector holds 25. *)
Lemma add_options_ok {B} (f : B → SelectOption) (acc : list SelectOption)
      (l : list B) :
  (length acc + length l ≤ 25)%nat →
  for_each (λ opts x, add_option opts (f x)) acc l = Ok (acc ++ map f l)%list.
Proof.
  revert acc. induction l as [|x l IH]; intros acc Hlen.
  - cbn. by rewrite app_nil_r.
  - cbn [for_each map]. cbn [length] in Hlen.
    rewrite add_option_ok by lia. run_result.
    rewrite IH by (rewrite length_app; cbn; lia). by rewrite <- app_assoc.
Qed.

Lemma add_options_raise {B} (f : B → SelectOption) (acc : list SelectOption)
      (l : list B) :
  (25 < length acc + length l)%nat → l ≠ [] →
  for_each (λ opts x, add_option opts (f x)) acc l = Raise ValueError.
Proof.
  revert acc. induction l as [|x l IH]; intros acc Hlen Hne; [done|].
  cbn [for_each]. cbn [length] in Hlen.
  destruct (Nat.le_gt_cases 25 (length acc)).
  - by rewrite add_option_raise.
  - rewrite add_option_ok by lia. run_result.
    apply IH; [rewrite length_app; cbn; lia|]. intros ->. cbn in Hlen. lia.
Qed.

Lemma command_select_init_ok c (cmds : list Command) cx suffix :
  (length cmds ≤ 24)%nat →
  CommandSelect.init c cmds cx suffix = Ok (command_select c cmds cx suffix).
Proof.
  intros Hlen. unfold CommandSelect.init, CommandSelect.populate. run_result.
  change (for_each _ ?acc cmds)
    with (for_each (λ opts x, add_option opts (command_option x)) acc cmds).
  by rewrite add_options_ok by (cbn; lia).
Qed.

Lemma command_select_init_raise c (cmds : list Command) cx suffix :
  (25 ≤ length cmds)%nat →
  CommandSelect.init c cmds cx suffix = Raise ValueError.
Proof.
  intros Hlen. unfold CommandSelect.init, CommandSelect.populate. run_result.
  change (for_each _ ?acc cmds)
    with (for_each (λ opts x, add_option opts (command_option x)) acc cmds).
  rewrite add_options_raise; [done | cbn; lia |].
  intros ->. cbn in Hlen. lia.
Qed.

(** The selector of the chunk starting at [i]: it holds
    [commands[i : i+24]], and its label runs from the first letter of
    [commands[i]] to the first letter of [commands[min (i+22) (len-1)]]:
    of a full chunk that is the command before its last one. *)
Lemma chunk_select_label cx cog (cmds : list Command) i c0 c1 a b :
  0 ≤ i →
  cmds !! Z.to_nat i = Some c0 →
  cmds !! Z.to_nat (Z.min (i + 22) (Z.of_nat (length cmds) - 1)) = Some c1 →
  str_head (name c0) = Ok a →
  str_head (name c1) = Ok b →
  KuriHelp.chunk_select cx cog cmds i
  = Ok (command_select cog (py_slice cmds i (i + 24)) cx
          ("[" +:+ upper a +:+ "-" +:+ upper b +:+ "]")).
Proof.
  intros Hi H0 H1 Ha Hb. unfold KuriHelp.chunk_select.
  pose proof (lookup_lt_Some _ _ _ H0) as Hlen.
  rewrite (py_index_lookup cmds i c0) by done. run_result. rewrite Ha. cbn.
  change (i + SELECT_MAX_VALUES - 2) with (i + 25 - 2).
  change (i + SELECT_MAX_VALUES - 1) with (i + 25 - 1).
  replace (i + 25 - 2) with (i + 23) by lia.
  replace (i + 25 - 1) with (i + 24) by lia.
  assert (Hs : py_slice cmds i (i + 23) = take 23 (drop (Z.to_nat i) cmds)).
  { rewrite py_slice_nonneg by lia. do 2 f_equal. lia. }
  assert (Hl : py_index (py_slice cmds i (i + 23)) (-1) = Ok c1).
  { rewrite Hs. unfold py_index.
    rewrite length_take, length_drop.
    change (-1 <? 0) with true. cbn match.
    set (n := Z.of_nat (23 `min` (length cmds - Z.to_nat i))).
    assert (Hn : n = Z.min 23 (Z.of_nat (length cmds) - i)) by lia.
    rewrite (proj2 (Z.ltb_ge (-1 + n) 0)) by lia.
    rewrite (proj2 (Z.leb_gt n (-1 + n))) by lia. cbn [orb].
    rewrite lookup_take, decide_True by lia. rewrite lookup_drop.
    replace (Z.to_nat i + Z.to_nat (-1 + n))%nat
      with (Z.to_nat (Z.min (i + 22) (Z.of_nat (length cmds) - 1))) by lia.
    by rewrite H1. }
  rewrite Hl. cbn. rewrite Hb. cbn. apply command_select_init_ok.
  rewrite py_slice_nonneg by lia. rewrite length_take. lia.
Qed.

(** Forty commands with non-empty names always give two selectors, over
    [commands[0:24]] and [commands[24:40]], labelled from the first letters
    of [commands[0]] and [commands[22]], and of [commands[24]] and
    [commands[39]]. *)
Lemma command_selects_40 cx cog (cmds : list Command) c0 c22 c24 c39 a0 a22 a24 a39 :
  length cmds = 40%nat →
  cmds !! 0%nat = Some c0 → cmds !! 22%nat = Some c22 →
  cmds !! 24%nat = Some c24 → cmds !! 39%nat = Some c39 →
  str_head (name c0) = Ok a0 → str_head (name c22) = Ok a22 →
  str_head (name c24) = Ok a24 → str_head (name c39) = Ok a39 →
  KuriHelp.command_selects cx cog cmds
  = Ok [command_select cog (py_slice cmds 0 24) cx
          ("[" +:+ upper a0 +:+ "-" +:+ upper a22 +:+ "]");
        command_select cog (py_slice cmds 24 40) cx
          ("[" +:+ upper a24 +:+ "-" +:+ upper a39 +:+ "]")].
Proof.
  intros Hlen H0 H22 H24 H39 Ha0 Ha22 Ha24 Ha39.
  unfold KuriHelp.command_selects. rewrite Hlen.
  change (SELECT_MAX_VALUES <? Z.of_nat 40) with true. cbn match.
  change (py_range0 (Z.of_nat 40) (SELECT_MAX_VALUES - 1)) with [0; 24].
  cbn [mapM]. run_result.
  rewrite (chunk_select_label cx cog cmds 0 c0 c22 a0 a22);
    [|done|done|by rewrite Hlen|done|done].
  rewrite (chunk_select_label cx cog cmds 24 c24 c39 a24 a39);
    [|done|done|by rewrite Hlen|done|done].
  do 3 f_equal. unfold py_slice, slice_bound. by rewrite Hlen.
Qed.

(** C3. At 40 commands in name order, of which the 23rd starts with [m]
    and the 24th with [n], the code makes two selectors, over
    [commands[0:24]] and [commands[24:40]], as the claim says; but the first
    is labelled [M-M] although its last command is [n23]: the label ends at
    [commands[22]], one before the chunk's last command. *)
Theorem selectors_of_40_commands :
  let cmds := sample_commands 40 in
  ∃ s0 s1,
    KuriHelp.command_selects sample_context (mk_cog "Mod") cmds = Ok [s0; s1]
    ∧ CommandSelect.commands s0 = py_slice cmds 0 24
    ∧ CommandSelect.commands s1 = py_slice cmds 24 40
    ∧ CommandSelect.placeholder s0 = "Select a command[M-M]"
    ∧ CommandSelect.placeholder s1 = "Select a command[N-N]"
    ∧ length (CommandSelect.commands s0) = 24%nat
    ∧ length (CommandSelect.commands s1) = 16%nat
    ∧ name <$> CommandSelect.commands s0 !! 22%nat = Some "m22"
    ∧ name <$> CommandSelect.commands s0 !! 23%nat = Some "n23"
    ∧ name <$> CommandSelect.commands s1 !! 15%nat = Some "n39".
Proof.
  eexists _, _. split; [by vm_compute|]. by vm_compute.
Qed.


(** * Further properties of the code *)

(** ** Cursor arithmetic *)

Lemma run_app p ops ops' : run p (ops ++ ops') = run (run p ops) ops'.
Proof. apply foldl_app. Qed.

(** X1. Repeating a move: [k] times [next] from a cursor not beyond the last
    page lands on [min (idx + k) (n_pages - 1)], and [k] times [previous] from
    a cursor not before the first lands on [max (idx - k) 0]; so [n_pages - 1]
    times [next] from the first page reaches the last one. *)
Theorem repeated_moves (p : Paginator) (k : nat) :
  (idx p ≤ n_pages p - 1 →
   idx (run p (replicate k OpNext))
   = Z.min (idx p + Z.of_nat k) (n_pages p - 1))
  ∧ (0 ≤ idx p →
     idx (run p (replicate k OpPrevious)) = Z.max (idx p - Z.of_nat k) 0)
  ∧ (1 ≤ n_pages p → idx p = 0 →
     is_last (run p (replicate (Z.to_nat (n_pages p - 1)) OpNext)) = true).
Proof.
  assert (Hnext : ∀ k q, idx q ≤ n_pages q - 1 →
            idx (run q (replicate k OpNext))
            = Z.min (idx q + Z.of_nat k) (n_pages q - 1)).
  { clear. induction k as [|k IH]; intros q Hq; [cbn; lia|].
    rewrite replicate_S_end, run_app.
    change (run ?r [OpNext]) with (step r OpNext).
    rewrite idx_step, n_pages_run, IH by done. lia. }
  assert (Hprev : ∀ k q, 0 ≤ idx q →
            idx (run q (replicate k OpPrevious))
            = Z.max (idx q - Z.of_nat k) 0).
  { clear. induction k as [|k IH]; intros q Hq; [cbn; lia|].
    rewrite replicate_S_end, run_app.
    change (run ?r [OpPrevious]) with (step r OpPrevious).
    rewrite idx_step, IH by done. lia. }
  split_and!; [apply Hnext | apply Hprev |].
  intros Hn H0. unfold is_last, BasePaginator.is_last.
  fold (idx (run p (replicate (Z.to_nat (n_pages p - 1)) OpNext))).
  fold (n_pages (run p (replicate (Z.to_nat (n_pages p - 1)) OpNext))).
  rewrite n_pages_run, Hnext by lia. apply Z.eqb_eq. lia.
Qed.

Lemma repeated_moves_witness :
  idx (run sample_detail (replicate 5 OpNext))
  = Z.min (idx sample_detail + Z.of_nat 5) (n_pages sample_detail - 1).
Proof.
  destruct (repeated_moves sample_detail 5) as (H & _ & _).
  apply H. by vm_compute.
Defined.

(** X2. [next] then [previous] gives back the very same paginator, unless
    the cursor was on the last page: there [next] stays and [previous] moves
    one page back. Likewise [previous] then [next], unless on the first
    page, where the pair moves one page forward. *)
Theorem move_round_trip (p : Paginator) :
  (0 ≤ idx p < n_pages p - 1 → previous (next p) = p)
  ∧ (0 < idx p ≤ n_pages p - 1 → next (previous p) = p)
  ∧ (2 ≤ n_pages p → idx p = n_pages p - 1 →
     idx (previous (next p)) = idx p - 1)
  ∧ (2 ≤ n_pages p → idx p = 0 → idx (next (previous p)) = 1).
Proof.
  assert (Hset : ∀ q i, idx q = i →
            with_base q (BasePaginator.set_idx (base q) i) = q).
  { intros [[[] ? ? ?]|[[] ? ? ?]|[[] ? ? ?]] i; cbn; by intros <-. }
  assert (Hww : ∀ q b b', with_base (with_base q b) b' = with_base q b')
    by (by intros [| |]).
  split_and!.
  - intros H. unfold previous, next. rewrite base_with_base.
    unfold BasePaginator.previous, BasePaginator.next. cbn.
    fold (idx p). fold (n_pages p).
    replace (Z.max (Z.min (idx p + 1) (n_pages p - 1) - 1) 0) with (idx p) by lia.
    rewrite Hww. by apply Hset.
  - intros H. unfold previous, next. rewrite base_with_base.
    unfold BasePaginator.previous, BasePaginator.next. cbn.
    fold (idx p). fold (n_pages p).
    replace (Z.min (Z.max (idx p - 1) 0 + 1) (n_pages p - 1)) with (idx p) by lia.
    rewrite Hww. by apply Hset.
  - intros Hn Hl. change (previous (next p)) with (step (step p OpNext) OpPrevious).
    rewrite !idx_step. lia.
  - intros Hn H0. change (next (previous p)) with (step (step p OpPrevious) OpNext).
    rewrite !idx_step, n_pages_step. lia.
Qed.

Lemma move_round_trip_witness :
  previous (next sample_detail) = sample_detail
  ∧ idx (previous (next (last sample_detail))) = idx (last sample_detail) - 1.
Proof.
  split.
  - destruct (move_round_trip sample_detail) as (H & _). apply H. by vm_compute.
  - destruct (move_round_trip (last sample_detail)) as (_ & _ & H & _).
    apply H; by vm_compute.
Defined.

(** ** The cache over a paginator's life *)

(** A [current()] that returns either leaves the cache alone or stores what
    it returns at the cursor, and it stores only over nothing or over a
    display that tests false. *)
Lemma current_pages p e p' :
  current p = Ok (e, p') →
  pages p' = pages p
  ∨ (pages p' = <[idx p := e]> (pages p)
     ∧ ∀ e0, pages p !! idx p = Some e0 → embed_bool e0 = false).
Proof.
  destruct p as [q|q|q]; cbn.
  - unfold MainHelpPaginator.current, MainHelpPaginator.build.
    destruct (BasePaginator.pages _ !! _) as [e0|] eqn:Hl;
      [destruct (embed_bool e0) eqn:Hb|]; cbn;
      try (intros [= <- <-]; by left);
      destruct (py_index _ _); cbn; intros [= <- <-]; right; split; try done;
      intros e1 He1; unfold pages, idx, base in He1; congruence.
  - unfold CogHelpPaginator.current, CogHelpPaginator.build.
    destruct (BasePaginator.pages _ !! _) as [e0|] eqn:Hl;
      [destruct (embed_bool e0) eqn:Hb|]; cbn;
      intros [= <- <-]; try (by left); right; split; try done;
      intros e1 He1; unfold pages, idx, base in He1; congruence.
  - intros [= <- <-]. by left.
Qed.

Lemma single_create_embed_true q c :
  embed_bool (CommandHelpPaginator.create_embed q c) = true.
Proof.
  apply embed_bool_title. unfold CommandHelpPaginator.create_embed.
  destruct (aliases c); cbn; by apply app_not_empty_r.
Qed.

Lemma current_true p e p' :
  current p = Ok (e, p') → cache_true p → embed_bool e = true.
Proof.
  intros Hc Ht. destruct p as [q|q|q]; cbn in Hc.
  - unfold MainHelpPaginator.current, MainHelpPaginator.build in Hc.
    destruct (BasePaginator.pages _ !! _) as [e0|] eqn:Hl;
      [destruct (embed_bool e0) eqn:Hb|]; cbn in Hc;
      try (injection Hc as <- <-; done);
      destruct (py_index _ _); cbn in Hc; try done;
      injection Hc as <- <-; apply main_create_embed_true.
  - unfold CogHelpPaginator.current, CogHelpPaginator.build in Hc.
    destruct (BasePaginator.pages _ !! _) as [e0|] eqn:Hl;
      [destruct (embed_bool e0) eqn:Hb|]; cbn in Hc;
      injection Hc as <- <-; try done; apply detail_create_embed_true.
  - injection Hc as <- <-. apply single_create_embed_true.
Qed.

Lemma pages_step p o : pages (step p o) = pages p.
Proof. by destruct o, p. Qed.

Lemma cache_true_call p k : cache_true p → cache_true (call p k).
Proof.
  intros Ht. destruct k as [o|].
  - unfold cache_true. cbn [call]. by rewrite pages_step.
  - cbn. destruct (current p) as [[e p']|] eqn:Hc; [|done].
    pose proof (current_true _ _ _ Hc Ht) as He. unfold cache_true.
    destruct (current_pages _ _ _ Hc) as [->|[-> _]]; [done|].
    intros i e0. rewrite lookup_insert. case_decide; [congruence | apply Ht].
Qed.

Lemma cache_true_calls p cs : cache_true p → cache_true (calls p cs).
Proof.
  revert p. induction cs as [|k cs IH]; intros p H; [done|].
  apply IH. by apply cache_true_call.
Qed.

Lemma cache_kept_call p k i e :
  cache_true p → pages p !! i = Some e → pages (call p k) !! i = Some e.
Proof.
  intros Ht Hl. destruct k as [o|].
  - cbn [call]. by rewrite pages_step.
  - cbn. destruct (current p) as [[e' p']|] eqn:Hc; [|done].
    destruct (current_pages _ _ _ Hc) as [->|[-> Hf]]; [done|].
    rewrite lookup_insert_ne; [done|]. intros <-.
    specialize (Hf _ Hl). specialize (Ht _ _ Hl). congruence.
Qed.

(** X3. Nothing is ever evicted or replaced: a display that is in the cache
    of a paginator after some calls on a freshly constructed paginator is
    still there, unchanged, after any further calls. *)
Theorem cache_never_evicts (p0 : Paginator) (cs cs' : list Call) (i : Z)
        (e : Embed) :
  pages p0 = ∅ →
  pages (calls p0 cs) !! i = Some e →
  pages (calls p0 (cs ++ cs')) !! i = Some e.
Proof.
  intros H0. unfold calls at 2. rewrite foldl_app. fold (calls p0 cs).
  assert (Ht : cache_true (calls p0 cs)).
  { apply cache_true_calls. intros j e0. unfold pages in H0 |- *.
    by rewrite H0, lookup_empty. }
  revert Ht. generalize (calls p0 cs). clear.
  induction cs' as [|k cs' IH]; intros p Ht Hl; [done|].
  cbn. apply IH; [by apply cache_true_call | by apply cache_kept_call].
Qed.

Lemma cache_never_evicts_witness :
  pages (calls sample_detail ([Current; Nav OpNext; Current]
                              ++ [Nav OpLast; Current; Nav OpFirst; Current]))
    !! 1
  = Some (detail_page (mk_cog "Mod") (sample_commands 17) "." 1).
Proof.
  apply (cache_never_evicts sample_detail); by vm_compute.
Defined.

(** X4. The cache stays within the pages: after any calls on a freshly
    constructed paginator with at least one page, every index that has a
    cached display lies in [0, n_pages - 1], so the cache never holds more
    than [n_pages] displays. *)
Theorem cache_within_pages (p0 : Paginator) (cs : list Call) :
  pages p0 = ∅ → 1 ≤ n_pages p0 → idx p0 = 0 →
  (∀ i, is_Some (pages (calls p0 cs) !! i) → 0 ≤ i ≤ n_pages p0 - 1)
  ∧ (size (pages (calls p0 cs)) ≤ Z.to_nat (n_pages p0))%nat.
Proof.
  intros H0 Hn Hi.
  assert (Hinv : ∀ cs p, 1 ≤ n_pages p → in_range p →
            (∀ i, is_Some (pages p !! i) → 0 ≤ i ≤ n_pages p - 1) →
            ∀ i, is_Some (pages (calls p cs) !! i) → 0 ≤ i ≤ n_pages p - 1).
  { clear. induction cs as [|k cs IH]; intros p Hn Hr Hp; [done|].
    destruct (call_cursor p k Hn Hr) as [Hr' Hn'].
    cbn. fold (calls (call p k) cs). rewrite <- Hn'.
    apply IH; [lia | done |]. rewrite Hn'.
    destruct k as [o|]; [cbn [call]; by rewrite pages_step|].
    cbn. destruct (current p) as [[e p']|] eqn:Hc; [|done].
    destruct (current_pages _ _ _ Hc) as [->|[-> _]]; [done|].
    intros i. rewrite lookup_insert_is_Some. intros [<-|[_ H]]; [done|].
    by apply Hp. }
  assert (Hkeys : ∀ i, is_Some (pages (calls p0 cs) !! i) →
            0 ≤ i ≤ n_pages p0 - 1).
  { apply Hinv; [done | unfold in_range; lia |].
    intros i. unfold pages in H0 |- *. rewrite H0, lookup_empty.
    by intros []. }
  split; [done|].
  rewrite <- size_dom.
  assert (Hsub : dom (pages (calls p0 cs))
                 ⊆ (list_to_set (seqZ 0 (n_pages p0)) : gset Z)).
  { intros i Hin. apply elem_of_dom in Hin. apply Hkeys in Hin.
    apply elem_of_list_to_set, elem_of_seqZ. lia. }
  apply subseteq_size in Hsub. rewrite size_list_to_set in Hsub
    by apply NoDup_seqZ. by rewrite length_seqZ in Hsub.
Qed.

Lemma cache_within_pages_witness :
  let p := calls sample_detail [Current; Nav OpNext; Current; Nav OpNext;
                                Current; Nav OpNext; Current] in
  (∀ i, is_Some (pages p !! i) → 0 ≤ i ≤ n_pages sample_detail - 1)
  ∧ (size (pages p) ≤ Z.to_nat (n_pages sample_detail))%nat.
Proof.
  apply (cache_within_pages sample_detail); by vm_compute.
Defined.

(** ** Pages as a partition of the content *)

Lemma ceil_div_spec n k :
  0 < k → k * (ceil_div n k - 1) < n ≤ k * ceil_div n k.
Proof.
  intros Hk. unfold ceil_div.
  pose proof (Z.div_mod (- n) k). pose proof (Z.mod_pos_bound (- n) k). lia.
Qed.

Lemma concat_chunks {A} (n : nat) (l : list A) (N : nat) :
  (length l ≤ n * N)%nat →
  concat (map (λ k, take n (drop (n * k) l)) (seq 0 N)) = l.
Proof.
  revert l. induction N as [|N IH]; intros l Hl.
  - destruct l; [done | cbn in Hl; lia].
  - cbn [seq map concat]. rewrite <- seq_shift, map_map.
    rewrite (map_ext _ (λ k, take n (drop (n * k) (drop n l)))).
    + rewrite IH by (rewrite length_drop; lia).
      rewrite Nat.mul_0_r. cbn [drop]. apply take_drop.
    + intros k. rewrite drop_drop. do 2 f_equal. lia.
Qed.

Lemma detail_page_fields c cmds pre i :
  0 ≤ i →
  fields (detail_page c cmds pre i)
  = map command_entry (take 8 (drop (8 * Z.to_nat i) cmds)).
Proof.
  intros Hi. unfold detail_page. rewrite detail_create_embed_fields.
  rewrite py_slice_nonneg by lia. do 3 f_equal; lia.
Qed.

(** X5. The pages of a detail paginator partition its commands, whatever
    their number: there are [ceil(len/8)] pages, none exactly when there is
    no command; the fields of pages 0, 1, ... in order are the commands'
    entries in order, each command on exactly one page; every page shows
    between 1 and 8 commands; and after any calls [current()] returns the
    page at the cursor. *)
Theorem detail_pages_partition (c : Cog) (cmds : list Command) (pre : string) :
  let p0 := Detail (CogHelpPaginator.init c cmds pre) in
  let n := n_pages p0 in
  n = ceil_div (Z.of_nat (length cmds)) 8
  ∧ (n = 0 ↔ cmds = [])
  ∧ concat (map (λ i, fields (detail_page c cmds pre i)) (seqZ 0 n))
    = map command_entry cmds
  ∧ (∀ i, 0 ≤ i < n →
       (1 ≤ length (fields (detail_page c cmds pre i)) ≤ 8)%nat)
  ∧ (∀ cs, ∃ p', current (calls p0 cs)
                 = Ok (detail_page c cmds pre (idx (calls p0 cs)), p')).
Proof.
  intros p0 n.
  assert (Hn : n = ceil_div (Z.of_nat (length cmds)) 8) by done.
  pose proof (ceil_div_spec (Z.of_nat (length cmds)) 8 eq_refl) as Hs.
  rewrite <- Hn in Hs.
  split_and!; [done | | | |].
  - split; [|by intros ->]. intros H0. destruct cmds; [done|].
    rewrite H0 in Hs. cbn in Hs. lia.
  - pose proof (concat_chunks 8 cmds (Z.to_nat n)) as Hcat.
    specialize (Hcat ltac:(lia)).
    apply (f_equal (map command_entry)) in Hcat.
    rewrite concat_map, map_map in Hcat.
    etrans; [|exact Hcat]. f_equal. unfold seqZ.
    change (?f <$> seq 0 ?k) with (map f (seq 0 k)).
    rewrite map_map. apply map_ext. intros k.
    rewrite detail_page_fields by lia. do 4 f_equal. lia.
  - intros i Hi. rewrite detail_page_fields by lia.
    rewrite length_map, length_take, length_drop. lia.
  - intros cs.
    assert (Hst : detail_state c cmds pre (calls p0 cs)).
    { apply detail_state_calls. eexists. split; [done|]. apply detail_inv_init. }
    destruct (detail_state_current _ _ _ _ Hst) as (p' & Hc & _). by exists p'.
Qed.

Lemma detail_pages_partition_witness :
  (1 ≤ length (fields (detail_page (mk_cog "Mod") (sample_commands 17) "." 2))
   ≤ 8)%nat.
Proof.
  destruct (detail_pages_partition (mk_cog "Mod") (sample_commands 17) ".")
    as (_ & _ & _ & H & _).
  apply H. by vm_compute.
Defined.

(** X6. The constructor of the index paginator never raises on a mapping
    and cuts it into slices that partition it: as many slices as pages,
    [ceil(len/9)]; the slices in order make up the mapping again, entry by
    entry in the mapping's order; every slice holds between 1 and 9
    categories. *)
Theorem index_slices_partition (m : Mapping) (d pre : string) :
  dict_wf m →
  ∃ q, MainHelpPaginator.init m d pre = Ok q
       ∧ concat (MainHelpPaginator.slices q) = m
       ∧ n_pages (Main q) = ceil_div (Z.of_nat (length m)) 9
       ∧ Z.of_nat (length (MainHelpPaginator.slices q)) = n_pages (Main q)
       ∧ Forall (λ s : Mapping, (1 ≤ length s ≤ 9)%nat)
                (MainHelpPaginator.slices q)
       ∧ idx (Main q) = 0 ∧ pages (Main q) = ∅.
Proof.
  intros Hwf. eexists. split; [by apply main_init|]. cbn.
  pose proof (ceil_div_spec (Z.of_nat (length m)) 9 eq_refl) as Hs.
  split_and!; try done.
  - unfold chunks. apply concat_chunks. lia.
  - unfold n_pages, chunks. cbn. rewrite length_map, length_seq. lia.
  - apply Forall_lookup. intros i s. unfold chunks.
    change (map ?f ?l) with (f <$> l). rewrite list_lookup_fmap.
    destruct (seq _ _ !! i) as [j|] eqn:Hj; [|done].
    apply lookup_seq in Hj as [-> Hj]. cbn. intros [= <-].
    rewrite length_take, length_drop. lia.
Qed.

Lemma index_slices_partition_witness :
  ∃ q, MainHelpPaginator.init sample_mapping "Kurisu" "." = Ok q
       ∧ concat (MainHelpPaginator.slices q) = sample_mapping
       ∧ n_pages (Main q) = ceil_div (Z.of_nat (length sample_mapping)) 9
       ∧ Z.of_nat (length (MainHelpPaginator.slices q)) = n_pages (Main q)
       ∧ Forall (λ s : Mapping, (1 ≤ length s ≤ 9)%nat)
                (MainHelpPaginator.slices q)
       ∧ idx (Main q) = 0 ∧ pages (Main q) = ∅.
Proof.
  apply (index_slices_partition sample_mapping "Kurisu" ".").
  apply (bool_decide_unpack _). by vm_compute.
Defined.

(** ** Bot-wide help *)

Lemma dict_set_fresh (m : Mapping) k v :
  k ∉ m.*1 → dict_set m k v = (m ++ [(k, v)])%list.
Proof.
  induction m as [|[k' v'] m IH]; intros Hk; [done|].
  cbn in *. apply not_elem_of_cons in Hk as [Hne Hk].
  rewrite decide_False by done. by rewrite IH.
Qed.

Lemma visible_entry_key cx x y : visible_entry cx x = Some y → x.1 = Some y.1.
Proof.
  unfold visible_entry. destruct x as [[c|] cmds]; [|done]. cbn.
  destruct (filter_commands cx cmds); [done|]. by intros [= <-].
Qed.

Lemma filtered_mapping_from cx (acc : Mapping) mapping :
  NoDup ((Some <$> acc.*1) ++ mapping.*1) →
  foldl (λ f_mapping '(c, cmds),
           match c with
           | Some cog =>
               match filter_commands cx cmds with
               | [] => f_mapping
               | f_cmds => dict_set f_mapping cog f_cmds
               end
           | None => f_mapping
           end) acc mapping
  = (acc ++ omap (visible_entry cx) mapping)%list.
Proof.
  revert acc. induction mapping as [|[c cmds] mapping IH]; intros acc Hnd.
  - cbn. by rewrite app_nil_r.
  - cbn [foldl omap list_omap]. cbn in Hnd.
    apply NoDup_app in Hnd as (Hacc & Hdis & Hm).
    apply NoDup_cons in Hm as [Hc Hm].
    assert (Hrest : ∀ acc' : Mapping,
              NoDup (Some <$> acc'.*1) →
              (∀ k, k ∈ acc'.*1 → Some k ∈ (Some <$> acc.*1) ∨ Some k = c) →
              NoDup ((Some <$> acc'.*1) ++ mapping.*1)).
    { intros acc' Hnd' Hk. apply NoDup_app. split_and!; [done| |done].
      intros k' Hin Hin'. apply list_elem_of_fmap in Hin as (k & -> & Hin).
      destruct (Hk k Hin) as [H|H].
      - apply (Hdis _ H). by right.
      - apply Hc. by rewrite <- H. }
    unfold visible_entry at 1. cbn [fst snd].
    destruct c as [cog|]; [destruct (filter_commands cx cmds) as [|c0 f] eqn:E|].
    + apply IH, Hrest; [done|]. intros k Hk. left. by apply list_elem_of_fmap_2.
    + assert (Hfresh : cog ∉ acc.*1).
      { intros Hin. apply (Hdis (Some cog)); [by apply list_elem_of_fmap_2 | by left]. }
      rewrite dict_set_fresh by done. rewrite IH.
      * by rewrite <- app_assoc.
      * apply Hrest.
        -- rewrite fmap_app, fmap_app. cbn. apply NoDup_app. split_and!; [done| |].
           ++ intros k Hin Hin'. apply list_elem_of_fmap in Hin as (k0 & -> & Hin).
              apply list_elem_of_singleton in Hin'. injection Hin' as ->. done.
           ++ apply NoDup_singleton.
        -- intros k. rewrite fmap_app. cbn. rewrite elem_of_app.
           intros [Hin|Hin]; [left; by apply list_elem_of_fmap_2|].
           apply list_elem_of_singleton in Hin. right. by subst.
    + apply IH, Hrest; [done|]. intros k Hk. left. by apply list_elem_of_fmap_2.
Qed.

Lemma filtered_mapping_omap cx (mapping : list (option Cog * list Command)) :
  NoDup (mapping.*1) →
  KuriHelp.filtered_mapping cx mapping = omap (visible_entry cx) mapping.
Proof.
  intros Hnd. unfold KuriHelp.filtered_mapping.
  by rewrite filtered_mapping_from.
Qed.

Lemma filtered_mapping_wf cx (mapping : list (option Cog * list Command)) :
  NoDup (mapping.*1) → dict_wf (KuriHelp.filtered_mapping cx mapping).
Proof.
  intros Hnd. rewrite filtered_mapping_omap by done. unfold dict_wf.
  induction mapping as [|x mapping IH]; [constructor|].
  cbn in Hnd. apply NoDup_cons in Hnd as [Hx Hnd]. cbn.
  destruct (visible_entry cx x) as [y|] eqn:E; [|by apply IH].
  cbn. apply NoDup_cons. split; [|by apply IH].
  intros Hin. apply Hx. apply visible_entry_key in E. rewrite E.
  apply list_elem_of_fmap in Hin as (z & -> & Hin).
  apply list_elem_of_omap in Hin as (w & Hw & Hz).
  apply visible_entry_key in Hz. rewrite <- Hz.
  by apply list_elem_of_fmap_2.
Qed.

(** X7. Over the framework's mapping (a dict, so without repeated keys) the
    mapping [send_bot_help] builds keeps, in the same order, exactly the
    entries that have a category and at least one command left by the
    permission filter, each with its filtered commands; it is again without
    repeated keys and without a commandless category. *)
Theorem filtered_mapping_visible (cx : Context)
        (mapping : list (option Cog * list Command)) :
  NoDup (mapping.*1) →
  KuriHelp.filtered_mapping cx mapping = omap (visible_entry cx) mapping
  ∧ dict_wf (KuriHelp.filtered_mapping cx mapping)
  ∧ Forall (λ x, x.2 ≠ []) (KuriHelp.filtered_mapping cx mapping).
Proof.
  intros Hnd. split_and!.
  - by apply filtered_mapping_omap.
  - by apply filtered_mapping_wf.
  - apply filtered_mapping_commands.
Qed.

Lemma filtered_mapping_visible_witness :
  KuriHelp.filtered_mapping sample_context sample_bot_mapping
  = omap (visible_entry sample_context) sample_bot_mapping
  ∧ dict_wf (KuriHelp.filtered_mapping sample_context sample_bot_mapping)
  ∧ Forall (λ x, x.2 ≠ [])
           (KuriHelp.filtered_mapping sample_context sample_bot_mapping).
Proof.
  apply (filtered_mapping_visible sample_context sample_bot_mapping).
  apply (bool_decide_unpack _). by vm_compute.
Defined.

Lemma filter_all {A} (P : A → Prop) `{∀ x, Decision (P x)} (l : list A) :
  Forall P l → filter P l = l.
Proof.
  induction 1 as [|x l Hx Hl IH]; [done|].
  by rewrite filter_cons, decide_True, IH.
Qed.

Lemma init_view_eq p a :
  HelpView.init p a
  = {| paginator := p; message := None; author := a;
       buttons := if n_pages p =? 1 then all_disabled else declared_buttons;
       children := []; timeout := 30; stopped := false |}.
Proof. unfold HelpView.init. cbn [paginator]. by destruct (n_pages p =? 1). Qed.

Lemma add_item_init (i : Item) p a :
  add_item i (HelpView.init p a)
  = Ok {| paginator := p; message := None; author := a;
          buttons := if n_pages p =? 1 then all_disabled else declared_buttons;
          children := [i]; timeout := 30; stopped := false |}.
Proof. by rewrite init_view_eq. Qed.

(** The category selector's constructor, against the toolkit's limit of 25
    options. *)
Lemma populate_category_from (m : Mapping) (acc : list SelectOption) :
  for_each (λ opts '(c, cmds),
              match cmds with
              | [] => Ok opts
              | _ => add_option opts
                       {| label := cog_qualified_name c;
                          value := cog_qualified_name c;
                          option_description := cog_description c |}
              end) acc m
  = for_each (λ opts x, add_option opts (category_option x)) acc
             (filter (λ x, x.2 ≠ []) m).
Proof.
  revert acc. induction m as [|[c cmds] m IH]; intros acc; [done|].
  rewrite filter_cons. destruct cmds as [|c0 cmds].
  - rewrite decide_False by (by intros ?). cbn [for_each]. run_result.
    apply IH.
  - rewrite decide_True by done. cbn [for_each].
    change (add_option acc _)
      with (add_option acc (category_option (c, c0 :: cmds))).
    destruct (add_option acc _) as [acc'|x]; run_result; [apply IH | done].
Qed.

Lemma category_select_init_ok (m : Mapping) cx :
  (length (filter (λ x, x.2 ≠ []) m) ≤ 24)%nat →
  CategorySelect.init m cx = Ok (category_select m cx).
Proof.
  intros Hlen. unfold CategorySelect.init, CategorySelect.populate. run_result.
  rewrite populate_category_from.
  by rewrite add_options_ok by (cbn; lia).
Qed.

Lemma category_select_init_raise (m : Mapping) cx :
  (25 ≤ length (filter (λ x, x.2 ≠ []) m))%nat →
  CategorySelect.init m cx = Raise ValueError.
Proof.
  intros Hlen. unfold CategorySelect.init, CategorySelect.populate. run_result.
  rewrite populate_category_from.
  rewrite add_options_raise; [done | cbn; lia |].
  intros H. rewrite H in Hlen. cbn in Hlen. lia.
Qed.

(** What [send_bot_help] returns when there is a visible category and the
    selector has room for all of them. *)
Lemma send_bot_help_ok (cx : Context) (msg : nat)
      (mapping : list (option Cog * list Command)) :
  NoDup (mapping.*1) →
  let f := KuriHelp.filtered_mapping cx mapping in
  let n := ceil_div (Z.of_nat (length f)) 9 in
  let e := main_page (bot_description cx) (ctx_prefix cx) n 0 (py_slice f 0 9) in
  let b := if n =? 1 then all_disabled else declared_buttons in
  f ≠ [] → (length f ≤ 24)%nat →
  ∃ q p', MainHelpPaginator.init f (bot_description cx) (ctx_prefix cx) = Ok q
          ∧ current (Main q) = Ok (e, p')
          ∧ pages p' !! 0 = Some e
          ∧ KuriHelp.send_bot_help cx msg mapping
            = Ok ({| paginator := p'; message := Some msg;
                     author := ctx_author cx; buttons := b;
                     children := [CategoryItem (category_select f cx)];
                     timeout := 30; stopped := false |},
                  [Send e (Some b)]).
Proof.
  intros Hnd f n e b Hne Hlen.
  pose proof (filtered_mapping_wf cx mapping Hnd) as Hwf.
  pose proof (filtered_mapping_commands cx mapping) as Hall.
  fold f in Hwf, Hall.
  pose proof (main_init f (bot_description cx) (ctx_prefix cx) Hwf) as Hinit.
  match type of Hinit with _ = Ok ?r => set (q := r) in * end.
  destruct (main_calls_current f _ _ q [] Hwf Hne Hinit)
    as (Hn & _ & p' & Hc & Hl & _).
  change (calls (Main q) []) with (Main q) in Hc, Hl.
  change (idx (Main q)) with 0 in Hc, Hl.
  exists q, p'. split_and!; try done.
  unfold KuriHelp.send_bot_help. fold f.
  rewrite Hinit, category_select_init_ok by (by rewrite filter_all).
  unfold mbind at 1 2, result_bind. rewrite add_item_init.
  unfold mbind, result_bind, KuriHelp.send_view. cbn [paginator].
  rewrite Hc. cbn. done.
Qed.







(** X8. When at least one and at most 24 categories have a visible command,
    [send_bot_help] sends one message with the first page and the view, and
    that page lists the first nine visible categories, none dropped. The
    view it leaves is bound to the requester and to the sent message, holds
    the category selector as its only child, is on page 0 of [ceil(len/9)]
    with that page cached, and has all buttons disabled exactly when there
    is one page. From 25 visible categories on, the category selector cannot
    take its options: the call raises [ValueError] and sends nothing. *)
Theorem send_bot_help_first_page (cx : Context) (msg : nat)
        (mapping : list (option Cog * list Command)) :
  NoDup (mapping.*1) →
  let f := KuriHelp.filtered_mapping cx mapping in
  (f ≠ [] → (length f ≤ 24)%nat →
   ∃ v e, KuriHelp.send_bot_help cx msg mapping
          = Ok (v, [Send e (Some (buttons v))])
          ∧ fields e = map category_entry (take 9 f)
          ∧ message v = Some msg ∧ author v = ctx_author cx
          ∧ children v = [CategoryItem (category_select f cx)]
          ∧ n_pages (paginator v) = ceil_div (Z.of_nat (length f)) 9
          ∧ idx (paginator v) = 0
          ∧ pages (paginator v) !! 0 = Some e
          ∧ buttons v = (if n_pages (paginator v) =? 1 then all_disabled
                         else declared_buttons))
  ∧ ((25 ≤ length f)%nat →
     KuriHelp.send_bot_help cx msg mapping = Raise ValueError).
Proof.
  intros Hnd f.
  pose proof (filtered_mapping_wf cx mapping Hnd) as Hwf.
  pose proof (filtered_mapping_commands cx mapping) as Hall.
  fold f in Hwf, Hall. split.
  - intros Hne Hlen.
    destruct (send_bot_help_ok cx msg mapping Hnd Hne Hlen)
      as (q & p' & Hinit & Hc & Hl & Hs).
    fold f in Hinit, Hc, Hl, Hs.
    destruct (current_cursor _ _ _ Hc) as [Hi' Hn'].
    pose proof (main_init f (bot_description cx) (ctx_prefix cx) Hwf) as Hq.
    rewrite Hinit in Hq. injection Hq as Hq.
    assert (Hn : n_pages (Main q) = ceil_div (Z.of_nat (length f)) 9)
      by by rewrite Hq.
    eexists _, _. split; [exact Hs|].
    cbn [paginator message author children buttons].
    split_and!; try done.
    + unfold main_page. rewrite main_create_embed_fields.
      rewrite py_slice_nonneg by lia. cbn [Z.to_nat drop].
      change (Z.to_nat (9 - 0)) with 9%nat.
      rewrite filter_all; [done|]. by apply Forall_take.
    + by rewrite Hn', Hn.
    + rewrite Hi'. by rewrite Hq.
    + by rewrite Hn', Hn.
  - intros Hlen. unfold KuriHelp.send_bot_help. fold f.
    rewrite (main_init f _ _ Hwf).
    by rewrite category_select_init_raise by (by rewrite filter_all).
Qed.

Lemma send_bot_help_first_page_witness :
  let f := KuriHelp.filtered_mapping sample_context sample_bot_mapping in
  ∃ v e, KuriHelp.send_bot_help sample_context 1 sample_bot_mapping
         = Ok (v, [Send e (Some (buttons v))])
         ∧ fields e = map category_entry (take 9 f)
         ∧ message v = Some 1%nat ∧ author v = ctx_author sample_context
         ∧ children v = [CategoryItem (category_select f sample_context)]
         ∧ n_pages (paginator v) = ceil_div (Z.of_nat (length f)) 9
         ∧ idx (paginator v) = 0
         ∧ pages (paginator v) !! 0 = Some e
         ∧ buttons v = (if n_pages (paginator v) =? 1 then all_disabled
                        else declared_buttons).
Proof.
  destruct (send_bot_help_first_page sample_context 1 sample_bot_mapping)
    as [H _].
  - apply (bool_decide_unpack _). by vm_compute.
  - apply H; [by vm_compute | vm_compute; lia].
Defined.

(** X9. When no category has a visible command (every entry is without
    category or loses all its commands to the filter), [send_bot_help]
    sends nothing: the paginator has no page, the first [current()] finds no
    slice, and the call raises [IndexError]. *)
Theorem send_bot_help_nothing_visible (cx : Context) (msg : nat)
        (mapping : list (option Cog * list Command)) :
  Forall (λ x, x.1 = None ∨ filter_commands cx x.2 = []) mapping →
  KuriHelp.filtered_mapping cx mapping = []
  ∧ KuriHelp.send_bot_help cx msg mapping = Raise IndexError.
Proof.
  intros Hall.
  assert (Hf : KuriHelp.filtered_mapping cx mapping = []).
  { unfold KuriHelp.filtered_mapping.
    induction Hall as [|[c cmds] mapping Hx _ IH]; [done|].
    cbn in *. destruct Hx as [Hx|Hx]; [by subst c|].
    rewrite Hx. by destruct c. }
  split; [done|]. unfold KuriHelp.send_bot_help. by rewrite Hf.
Qed.

Lemma send_bot_help_nothing_visible_witness :
  KuriHelp.filtered_mapping sample_context
    [(None, sample_commands 3); (Some (mk_cog "Mod"), [])] = []
  ∧ KuriHelp.send_bot_help sample_context 1
      [(None, sample_commands 3); (Some (mk_cog "Mod"), [])]
    = Raise IndexError.
Proof.
  apply (send_bot_help_nothing_visible sample_context 1).
  repeat constructor; by vm_compute.
Defined.

(** ** Selectors *)

(** X10. While at most 24 categories have a command, the category selector
    is constructed with the synthetic index option first and then one option
    per category that has a command, in the mapping's order, named and
    valued by the category's name; a category without commands gets none.
    With [k] such categories it has [k + 1] options. From 25 such categories
    on the selector cannot take the last option: the constructor raises
    [ValueError]. *)
Theorem category_select_options (m : Mapping) (cx : Context) :
  let shown := filter (λ x, x.2 ≠ []) m in
  ((length shown ≤ 24)%nat →
   ∃ s, CategorySelect.init m cx = Ok s
        ∧ CategorySelect.placeholder s = "Select a Category."
        ∧ CategorySelect.options s = index_option :: map category_option shown
        ∧ length (CategorySelect.options s) = S (length shown)
        ∧ (Z.of_nat (length (CategorySelect.options s)) ≤ SELECT_MAX_VALUES)
        ∧ (∀ c, (c, []) ∈ m → dict_wf m →
             ∀ o, o ∈ CategorySelect.options s →
                  o = index_option
                  ∨ ∃ c' cmds, (c', cmds) ∈ m ∧ c' ≠ c
                               ∧ o = category_option (c', cmds)))
  ∧ ((25 ≤ length shown)%nat → CategorySelect.init m cx = Raise ValueError).
Proof.
  intros shown. split.
  - intros Hlen. exists (category_select m cx).
    split; [by apply category_select_init_ok|].
    cbn [category_select CategorySelect.placeholder CategorySelect.options].
    fold shown. split_and!; [done | done | by cbn; rewrite length_map | |].
    + cbn [length]. rewrite length_map. unfold SELECT_MAX_VALUES. lia.
    + intros c Hc Hwf o. intros [->|Hin]%elem_of_cons; [by left|].
      right. change (map ?f ?l) with (f <$> l) in Hin.
      apply list_elem_of_fmap in Hin as ([c' cmds] & -> & Hin).
      apply list_elem_of_filter in Hin as [Hne Hin].
      exists c', cmds. split_and!; [done| |done].
      intros ->. apply Hne. by apply (dict_binding_unique m c cmds [] Hwf).
  - apply category_select_init_raise.
Qed.

Lemma category_select_options_witness :
  ∃ s, CategorySelect.init sample_mapping sample_context = Ok s
       ∧ length (CategorySelect.options s) = 19%nat
       ∧ (let o := category_option (mk_cog "1", sample_commands 2) in
          o = index_option
          ∨ ∃ c' cmds, (c', cmds) ∈ sample_mapping ∧ c' ≠ mk_cog "7"
                       ∧ o = category_option (c', cmds)).
Proof.
  destruct (category_select_options sample_mapping sample_context)
    as [H _].
  destruct H as (s & Hs & _ & Ho & Hl & _ & Hc); [vm_compute; lia|].
  exists s. split_and!; [exact Hs | by rewrite Hl | ].
  apply (Hc (mk_cog "7")).
  - by apply (list_elem_of_lookup_2 _ 7%nat).
  - apply (bool_decide_unpack _). by vm_compute.
  - rewrite Ho. by apply (list_elem_of_lookup_2 _ 1%nat).
Defined.

(** Sending the first page of a detail paginator from a fresh view. *)
Lemma send_view_detail c cmds pre a (items : list Item) msg :
  let n := ceil_div (Z.of_nat (length cmds)) 8 in
  let b := if n =? 1 then all_disabled else declared_buttons in
  ∃ p', KuriHelp.send_view
          {| paginator := Detail (CogHelpPaginator.init c cmds pre);
             message := None; author := a; buttons := b; children := items;
             timeout := 30; stopped := false |} msg
        = Ok ({| paginator := p'; message := Some msg; author := a;
                 buttons := b; children := items; timeout := 30;
                 stopped := false |},
              [Send (detail_page c cmds pre 0) (Some b)])
        ∧ detail_state c cmds pre p'
        ∧ idx p' = 0 ∧ n_pages p' = n
        ∧ pages p' !! 0 = Some (detail_page c cmds pre 0).
Proof.
  intros n b. set (p0 := Detail (CogHelpPaginator.init c cmds pre)).
  assert (Hst : detail_state c cmds pre p0).
  { eexists. split; [done|]. apply detail_inv_init. }
  destruct (detail_state_current _ _ _ _ Hst) as (p' & Hc & Hst' & Hi & Hl & _).
  destruct (current_cursor _ _ _ Hc) as [_ Hn].
  exists p'. split_and!; try done.
  unfold KuriHelp.send_view. cbn [paginator]. by rewrite Hc.
Qed.

Lemma add_item_ok i v :
  (length (children v) < 4)%nat →
  add_item i v
  = Ok {| paginator := paginator v; message := message v; author := author v;
          buttons := buttons v; children := (children v ++ [i])%list;
          timeout := timeout v; stopped := stopped v |}.
Proof.
  intros H. unfold add_item.
  by destruct (Nat.leb_spec 4 (length (children v))); [lia|].
Qed.

Lemma add_item_raise i v :
  (4 ≤ length (children v))%nat → add_item i v = Raise ValueError.
Proof.
  intros H. unfold add_item.
  by destruct (Nat.leb_spec 4 (length (children v))); [|lia].
Qed.

(** The loop of [send_cog_help] against the view's rows. *)
Lemma add_chunk_selects_ok cx cog cmds rng sels view :
  mapM (KuriHelp.chunk_select cx cog cmds) rng = Ok sels →
  (length (children view) + length sels ≤ 4)%nat →
  KuriHelp.add_chunk_selects cx cog cmds rng view
  = Ok (with_selects view sels).
Proof.
  revert sels view. induction rng as [|i rng IH]; intros sels view Hm Hlen.
  - injection Hm as <-. unfold with_selects. cbn.
    rewrite app_nil_r. by destruct view.
  - cbn [mapM] in Hm. cbn [KuriHelp.add_chunk_selects].
    unfold mbind, mret, result_bind, result_ret in Hm |- *.
    destruct (KuriHelp.chunk_select cx cog cmds i) as [s|]; [|done].
    destruct (mapM _ rng) as [ss|] eqn:Hss; [|done].
    injection Hm as <-. cbn [length] in Hlen.
    rewrite add_item_ok by lia.
    rewrite (IH ss) by (try done; cbn; rewrite length_app; cbn; lia).
    unfold with_selects. cbn. by rewrite <- app_assoc.
Qed.

Lemma add_chunk_selects_full cx cog cmds rng sels view :
  mapM (KuriHelp.chunk_select cx cog cmds) rng = Ok sels →
  (length (children view) ≤ 4)%nat →
  (4 < length (children view) + length sels)%nat →
  KuriHelp.add_chunk_selects cx cog cmds rng view = Raise ValueError.
Proof.
  revert sels view. induction rng as [|i rng IH]; intros sels view Hm Hle Hlen.
  - injection Hm as <-. cbn in Hlen. lia.
  - cbn [mapM] in Hm. cbn [KuriHelp.add_chunk_selects].
    unfold mbind, mret, result_bind, result_ret in Hm |- *.
    destruct (KuriHelp.chunk_select cx cog cmds i) as [s|]; [|done].
    destruct (mapM _ rng) as [ss|] eqn:Hss; [|done].
    injection Hm as <-. cbn [length] in Hlen.
    destruct (Nat.le_gt_cases 4 (length (children view))).
    + by rewrite add_item_raise.
    + rewrite add_item_ok by done.
      apply (IH ss); [done|..]; cbn; rewrite length_app; cbn; lia.
Qed.

Lemma add_chunk_selects_raise cx cog cmds rng x view :
  mapM (KuriHelp.chunk_select cx cog cmds) rng = Raise x →
  KuriHelp.add_chunk_selects cx cog cmds rng view = Raise x
  ∨ KuriHelp.add_chunk_selects cx cog cmds rng view = Raise ValueError.
Proof.
  revert view. induction rng as [|i rng IH]; intros view Hm; [done|].
  cbn [mapM] in Hm. cbn [KuriHelp.add_chunk_selects].
  unfold mbind, mret, result_bind, result_ret in Hm |- *.
  destruct (KuriHelp.chunk_select cx cog cmds i) as [s|y].
  - destruct (mapM _ rng) as [ss|y] eqn:Hss; [done|]. injection Hm as ->.
    destruct (add_item (CommandItem s) view) as [view'|z] eqn:Hadd.
    + by apply IH.
    + right. unfold add_item in Hadd.
      destruct (4 <=? length (children view))%nat; [|done].
      by injection Hadd as <-.
  - injection Hm as ->. by left.
Qed.

(** What [send_cog_help] does with the selectors of the splitting. *)
Lemma send_cog_help_sends cx msg cog raw sels :
  let cmds := filter_commands cx raw in
  let pre := ctx_prefix cx in
  let n := ceil_div (Z.of_nat (length cmds)) 8 in
  let b := if n =? 1 then all_disabled else declared_buttons in
  KuriHelp.command_selects cx cog cmds = Ok sels →
  (length sels ≤ 4)%nat →
  ∃ p', KuriHelp.send_cog_help cx msg cog raw
        = Ok ({| paginator := p'; message := Some msg;
                 author := ctx_author cx; buttons := b;
                 children := map CommandItem sels;
                 timeout := 30; stopped := false |},
              [Send (detail_page cog cmds pre 0) (Some b)])
        ∧ detail_state cog cmds pre p'
        ∧ idx p' = 0 ∧ n_pages p' = n
        ∧ pages p' !! 0 = Some (detail_page cog cmds pre 0).
Proof.
  intros cmds pre n b Hs Hlen.
  destruct (send_view_detail cog cmds pre (ctx_author cx)
              (map CommandItem sels) msg) as (p' & Hsend & Hrest).
  exists p'. split; [|exact Hrest].
  unfold KuriHelp.send_cog_help. cbn zeta. fold cmds pre.
  unfold KuriHelp.command_selects in Hs.
  destruct (SELECT_MAX_VALUES <? Z.of_nat (length cmds)).
  - rewrite (add_chunk_selects_ok _ _ _ _ sels) by
      (try done; rewrite init_view_eq; cbn; lia).
    rewrite init_view_eq. unfold with_selects. cbn. exact Hsend.
  - unfold mbind, mret, result_bind, result_ret in Hs |- *.
    destruct (CommandSelect.init cog cmds cx "") as [s|]; [|done].
    injection Hs as <-. rewrite add_item_init. exact Hsend.
Qed.

Lemma send_cog_help_overfull cx msg cog raw sels :
  KuriHelp.command_selects cx cog (filter_commands cx raw) = Ok sels →
  (4 < length sels)%nat →
  KuriHelp.send_cog_help cx msg cog raw = Raise ValueError.
Proof.
  intros Hs Hlen. unfold KuriHelp.send_cog_help. cbn zeta.
  unfold KuriHelp.command_selects in Hs.
  destruct (SELECT_MAX_VALUES <? Z.of_nat (length (filter_commands cx raw))).
  - by rewrite (add_chunk_selects_full _ _ _ _ sels) by
      (try done; rewrite init_view_eq; cbn; lia).
  - unfold mbind, mret, result_bind, result_ret in Hs.
    destruct (CommandSelect.init _ _ _ _) as [s|]; [|done].
    injection Hs as <-. cbn in Hlen. lia.
Qed.

Lemma send_cog_help_raises cx msg cog raw x :
  KuriHelp.command_selects cx cog (filter_commands cx raw) = Raise x →
  KuriHelp.send_cog_help cx msg cog raw = Raise x
  ∨ KuriHelp.send_cog_help cx msg cog raw = Raise ValueError.
Proof.
  intros Hs. unfold KuriHelp.send_cog_help. cbn zeta.
  unfold KuriHelp.command_selects in Hs.
  destruct (SELECT_MAX_VALUES <? Z.of_nat (length (filter_commands cx raw))).
  - destruct (add_chunk_selects_raise _ _ _ _ _
                (HelpView.init
                   (Detail (CogHelpPaginator.init cog (filter_commands cx raw)
                              (ctx_prefix cx)))
                   (ctx_author cx)) Hs) as [H|H]; rewrite H; [by left | by right].
  - unfold mbind, mret, result_bind, result_ret in Hs |- *.
    destruct (CommandSelect.init _ _ _ _) as [s|y]; [done|].
    injection Hs as ->. by left.
Qed.

(** X11. Up to 24 commands [send_cog_help] makes a single selector, without
    label, over all of them, and reads no name for it; the selector has one
    option more than there are commands, at most [SELECT_MAX_VALUES], and
    the view that is sent holds it as its only child. With exactly 25
    commands the code still makes a single selector, which cannot take its
    26th option: the constructor raises [ValueError] and nothing is sent. *)
Theorem command_selects_small (cx : Context) (cog : Cog) (cmds : list Command) :
  ((length cmds ≤ 24)%nat →
   let s := command_select cog cmds cx "" in
   KuriHelp.command_selects cx cog cmds = Ok [s]
   ∧ CommandSelect.placeholder s = "Select a command"
   ∧ CommandSelect.commands s = cmds
   ∧ length (CommandSelect.options s) = S (length cmds)
   ∧ Z.of_nat (length (CommandSelect.options s)) ≤ SELECT_MAX_VALUES
   ∧ ∀ msg raw, filter_commands cx raw = cmds →
       ∃ v e, KuriHelp.send_cog_help cx msg cog raw
              = Ok (v, [Send e (Some (buttons v))])
              ∧ children v = [CommandItem s])
  ∧ (length cmds = 25%nat →
     KuriHelp.command_selects cx cog cmds = Raise ValueError
     ∧ ∀ msg raw, filter_commands cx raw = cmds →
         KuriHelp.send_cog_help cx msg cog raw = Raise ValueError).
Proof.
  split.
  - intros Hlen s.
    assert (Hs : KuriHelp.command_selects cx cog cmds = Ok [s]).
    { unfold KuriHelp.command_selects.
      rewrite (proj2 (Z.ltb_ge _ _)) by (unfold SELECT_MAX_VALUES; lia).
      by rewrite command_select_init_ok. }
    split_and!; try done.
    + cbn. by rewrite length_map.
    + cbn. rewrite length_map. unfold SELECT_MAX_VALUES. lia.
    + intros msg raw Hraw. rewrite <- Hraw in Hs.
      destruct (send_cog_help_sends cx msg cog raw [s] Hs) as (p' & H & _);
        [cbn; lia|].
      eexists _, _. split; [exact H|]. done.
  - intros Hlen.
    assert (Hs : KuriHelp.command_selects cx cog cmds = Raise ValueError).
    { unfold KuriHelp.command_selects.
      rewrite (proj2 (Z.ltb_ge _ _)) by (unfold SELECT_MAX_VALUES; lia).
      by rewrite command_select_init_raise by lia. }
    split; [done|]. intros msg raw Hraw. rewrite <- Hraw in Hs.
    by destruct (send_cog_help_raises cx msg cog raw _ Hs).
Qed.

Lemma command_selects_small_witness :
  (let s := command_select (mk_cog "Mod") (sample_commands 24) sample_context ""
   in KuriHelp.command_selects sample_context (mk_cog "Mod") (sample_commands 24)
      = Ok [s]
      ∧ length (CommandSelect.options s) = 25%nat)
  ∧ KuriHelp.command_selects sample_context (mk_cog "Mod") (sample_commands 25)
    = Raise ValueError
  ∧ KuriHelp.send_cog_help sample_context 1 (mk_cog "Mod") (sample_commands 25)
    = Raise ValueError.
Proof.
  split.
  - destruct (command_selects_small sample_context (mk_cog "Mod")
                (sample_commands 24)) as [H _].
    destruct H as (H1 & _ & _ & H2 & _); [vm_compute; lia|].
    split; [exact H1 | exact H2].
  - destruct (command_selects_small sample_context (mk_cog "Mod")
                (sample_commands 25)) as [_ H].
    destruct H as [H1 H2]; [reflexivity|].
    split; [exact H1 | by apply H2].
Defined.

Lemma mapM_Forall2 {A B} (f : A → result B) (R : A → B → Prop) (l : list A) :
  (∀ x, x ∈ l → ∃ y, f x = Ok y ∧ R x y) →
  ∃ ys, mapM f l = Ok ys ∧ Forall2 R l ys.
Proof.
  induction l as [|x l IH]; intros H.
  - exists []. by split.
  - destruct (H x) as (y & Hy & HR); [by left|].
    destruct IH as (ys & Hys & HRs); [intros z Hz; apply H; by right|].
    exists (y :: ys). split; [|by constructor].
    cbn. run_result. rewrite Hy. unfold mbind, mret, result_bind, result_ret in Hys.
    by rewrite Hys.
Qed.

Lemma str_head_ok (s : string) : s ≠ "" → ∃ a, str_head s = Ok a.
Proof. destruct s; [done | by eexists]. Qed.

Lemma ascii_initial_not_empty (s : string) : ascii_initial s → s ≠ "".
Proof. by destruct s. Qed.

Lemma elem_of_py_range0 stop step i :
  i ∈ py_range0 stop step →
  ∃ k, i = Z.of_nat k * step ∧ (k < Z.to_nat (ceil_div stop step))%nat.
Proof.
  unfold py_range0. change (map ?f ?l) with (f <$> l).
  intros (k & -> & Hk)%list_elem_of_fmap. exists k. split; [done|].
  apply elem_of_seq in Hk. lia.
Qed.

(** The selectors of the splitting, for more than 25 named commands. *)
Lemma chunk_selects_ok cx cog (cmds : list Command) :
  (25 < length cmds)%nat →
  Forall (λ c, name c ≠ "") cmds →
  ∃ sels, KuriHelp.command_selects cx cog cmds = Ok sels
          ∧ mapM (KuriHelp.chunk_select cx cog cmds)
                 (py_range0 (Z.of_nat (length cmds)) 24) = Ok sels
          ∧ Forall2 (chunk_selector cx cog cmds)
                    (py_range0 (Z.of_nat (length cmds)) 24) sels
          ∧ Z.of_nat (length sels) = ceil_div (Z.of_nat (length cmds)) 24.
Proof.
  intros Hlen Hnames.
  pose proof (ceil_div_spec (Z.of_nat (length cmds)) 24 eq_refl) as Hs.
  assert (Hname : ∀ j c, cmds !! j = Some c → ∃ a, str_head (name c) = Ok a).
  { intros j c Hj. apply str_head_ok.
    rewrite Forall_lookup in Hnames. by eapply Hnames. }
  destruct (mapM_Forall2 (KuriHelp.chunk_select cx cog cmds)
              (chunk_selector cx cog cmds)
              (py_range0 (Z.of_nat (length cmds)) 24)) as (sels & Hm & HR).
  { intros i (k & -> & Hk)%elem_of_py_range0.
    destruct (lookup_lt_is_Some_2 cmds (Z.to_nat (Z.of_nat k * 24)))
      as [c0 H0]; [lia|].
    destruct (lookup_lt_is_Some_2 cmds
                (Z.to_nat (Z.min (Z.of_nat k * 24 + 22)
                                 (Z.of_nat (length cmds) - 1))))
      as [c1 H1]; [lia|].
    destruct (Hname _ _ H0) as [a Ha]. destruct (Hname _ _ H1) as [b Hb].
    eexists. split.
    - by apply (chunk_select_label cx cog cmds _ c0 c1 a b); [lia|..].
    - by exists c0, c1, a, b. }
  exists sels. split_and!; try done.
  - unfold KuriHelp.command_selects.
    rewrite (proj2 (Z.ltb_lt _ _)) by (unfold SELECT_MAX_VALUES; lia).
    exact Hm.
  - apply Forall2_length in HR. rewrite <- HR, length_py_range0. lia.
Qed.

(** X12. From 26 to 96 commands, all with a name that starts with an ASCII
    character, [send_cog_help] makes [ceil(len/24)] selectors, at most four,
    that partition the commands: selector [k] holds
    [commands[24k : 24k+24]], so the selectors' commands in order are the
    commands, each in one selector; every selector holds between 1 and 24
    commands and so at most 25 options; its label reads the first letter of
    its first command and that of [commands[min (24k+22) (len-1)]]; and the
    view that is sent holds these selectors, in order, as its children. From
    97 such commands on a fifth selector is due, for which the view has no
    row: the call raises [ValueError] and sends nothing. *)
Theorem command_selects_partition (cx : Context) (cog : Cog)
        (cmds : list Command) :
  (25 < length cmds)%nat →
  Forall (λ c, ascii_initial (name c)) cmds →
  ((length cmds ≤ 96)%nat →
   ∃ sels, KuriHelp.command_selects cx cog cmds = Ok sels
           ∧ Forall2 (chunk_selector cx cog cmds)
                     (py_range0 (Z.of_nat (length cmds)) 24) sels
           ∧ Z.of_nat (length sels) = ceil_div (Z.of_nat (length cmds)) 24
           ∧ (length sels ≤ 4)%nat
           ∧ concat (map CommandSelect.commands sels) = cmds
           ∧ Forall (λ s, (1 ≤ length (CommandSelect.commands s) ≤ 24)%nat
                          ∧ Z.of_nat (length (CommandSelect.options s))
                            ≤ SELECT_MAX_VALUES) sels
           ∧ ∀ msg raw, filter_commands cx raw = cmds →
               ∃ v e, KuriHelp.send_cog_help cx msg cog raw
                      = Ok (v, [Send e (Some (buttons v))])
                      ∧ children v = map CommandItem sels)
  ∧ ((96 < length cmds)%nat →
     ∀ msg raw, filter_commands cx raw = cmds →
       KuriHelp.send_cog_help cx msg cog raw = Raise ValueError).
Proof.
  intros Hlen Hascii.
  assert (Hnames : Forall (λ c, name c ≠ "") cmds).
  { eapply Forall_impl; [exact Hascii|]. intros c.
    apply ascii_initial_not_empty. }
  pose proof (ceil_div_spec (Z.of_nat (length cmds)) 24 eq_refl) as Hs.
  destruct (chunk_selects_ok cx cog cmds Hlen Hnames)
    as (sels & Hsel & Hm & HR & Hn).
  split.
  - intros Hmax. exists sels.
    assert (Hcmds : map CommandSelect.commands sels
                    = map (λ k, take 24 (drop (24 * k) cmds))
                          (seq 0 (Z.to_nat (ceil_div (Z.of_nat (length cmds)) 24)))).
    { unfold py_range0 in HR. clear Hm Hsel Hn. revert HR.
      generalize (seq 0 (Z.to_nat (ceil_div (Z.of_nat (length cmds)) 24))).
      intros ks. revert sels. induction ks as [|k ks IH]; intros sels HR.
      - by inversion HR.
      - cbn in HR. inversion HR as [|? s ? sels' Hk HR']; subst. cbn.
        rewrite (IH sels') by done. f_equal.
        destruct Hk as (? & ? & ? & ? & _ & _ & _ & _ & ->). cbn.
        rewrite py_slice_nonneg by lia. do 2 f_equal; lia. }
    assert (Hfour : (length sels ≤ 4)%nat) by lia.
    split_and!; try done.
    + rewrite Hcmds. apply concat_chunks. lia.
    + assert (Hlens : Forall (λ l : list Command, (1 ≤ length l ≤ 24)%nat)
                             (map CommandSelect.commands sels)).
      { rewrite Hcmds. apply Forall_lookup. intros j l.
        change (map ?f ?l) with (f <$> l). rewrite list_lookup_fmap.
        destruct (seq _ _ !! j) as [k|] eqn:Hk; [|done].
        apply lookup_seq in Hk as [-> Hk]. cbn. intros [= <-].
        rewrite length_take, length_drop. lia. }
      assert (Hopts : Forall (λ s, length (CommandSelect.options s)
                                   = S (length (CommandSelect.commands s))) sels).
      { clear -HR. induction HR as [|i s rng ss Hi _ IH]; constructor; [|done].
        destruct Hi as (? & ? & ? & ? & _ & _ & _ & _ & ->). cbn.
        by rewrite length_map. }
      change (map ?f ?l) with (f <$> l) in Hlens. rewrite Forall_fmap in Hlens.
      eapply Forall_impl; [apply Forall_and; split; [exact Hlens | exact Hopts]|].
      intros s [H1 H2]. cbn in H1. split; [done|]. rewrite H2.
      unfold SELECT_MAX_VALUES. lia.
    + intros msg raw Hraw. rewrite <- Hraw in Hsel.
      destruct (send_cog_help_sends cx msg cog raw sels Hsel Hfour)
        as (p' & H & _).
      eexists _, _. split; [exact H|]. done.
  - intros Hmin msg raw Hraw. rewrite <- Hraw in Hsel.
    apply (send_cog_help_overfull cx msg cog raw sels Hsel). lia.
Qed.

Lemma command_selects_partition_witness :
  ∃ sels, KuriHelp.command_selects sample_context (mk_cog "Mod")
            (sample_commands 60) = Ok sels
          ∧ Forall2 (chunk_selector sample_context (mk_cog "Mod")
                       (sample_commands 60))
                    (py_range0 (Z.of_nat (length (sample_commands 60))) 24) sels
          ∧ Z.of_nat (length sels)
            = ceil_div (Z.of_nat (length (sample_commands 60))) 24
          ∧ concat (map CommandSelect.commands sels) = sample_commands 60
          ∧ Forall (λ s, (1 ≤ length (CommandSelect.commands s) ≤ 24)%nat
                         ∧ Z.of_nat (length (CommandSelect.options s))
                           ≤ SELECT_MAX_VALUES) sels
          ∧ ∃ v e, KuriHelp.send_cog_help sample_context 1 (mk_cog "Mod")
                     (sample_commands 60)
                   = Ok (v, [Send e (Some (buttons v))])
                   ∧ children v = map CommandItem sels.
Proof.
  destruct (command_selects_partition sample_context (mk_cog "Mod")
              (sample_commands 60)) as [H _].
  - vm_compute. lia.
  - apply Forall_forall. intros c Hc.
    change (sample_commands 60) with
      ((λ k, mk_command ((if (k <? 23)%nat then "m" else "n") +:+ pretty k))
         <$> seq 0 60) in Hc.
    apply list_elem_of_fmap in Hc as (k & -> & _). cbn [name mk_command].
    destruct (k <? 23)%nat; vm_compute; lia.
  - destruct H as (sels & H1 & H2 & H3 & _ & H4 & H5 & H6); [vm_compute; lia|].
    exists sels. split_and!; try done. by apply H6.
Defined.

(** X13. Above 25 commands the labels read the commands' names: when the
    first command has an empty name, [send_cog_help] raises [IndexError]
    before any selector is made. *)
Theorem command_selects_empty_name (cx : Context) (cog : Cog)
        (cmds : list Command) (c : Command) :
  (25 < length cmds)%nat → cmds !! 0%nat = Some c → name c = "" →
  KuriHelp.command_selects cx cog cmds = Raise IndexError
  ∧ ∀ msg raw, filter_commands cx raw = cmds →
      KuriHelp.send_cog_help cx msg cog raw = Raise IndexError.
Proof.
  intros Hlen H0 Hname.
  pose proof (ceil_div_spec (Z.of_nat (length cmds)) 24 eq_refl) as Hs.
  assert (Hc : KuriHelp.chunk_select cx cog cmds 0 = Raise IndexError).
  { unfold KuriHelp.chunk_select.
    rewrite (py_index_lookup cmds 0 c) by done. run_result. by rewrite Hname. }
  assert (Hr : ∃ rng, py_range0 (Z.of_nat (length cmds)) (SELECT_MAX_VALUES - 1)
                      = 0 :: rng).
  { unfold py_range0. change (SELECT_MAX_VALUES - 1) with 24.
    destruct (Z.to_nat (ceil_div (Z.of_nat (length cmds)) 24)) as [|n] eqn:E;
      [lia|].
    by eexists. }
  destruct Hr as [rng Hr]. split.
  - unfold KuriHelp.command_selects.
    rewrite (proj2 (Z.ltb_lt _ _)) by (unfold SELECT_MAX_VALUES; lia).
    rewrite Hr. cbn [mapM]. by rewrite Hc.
  - intros msg raw Hraw. unfold KuriHelp.send_cog_help. rewrite Hraw. cbn zeta.
    rewrite (proj2 (Z.ltb_lt _ _)) by (unfold SELECT_MAX_VALUES; lia).
    rewrite Hr. cbn [KuriHelp.add_chunk_selects]. by rewrite Hc.
Qed.

Lemma command_selects_empty_name_witness :
  KuriHelp.command_selects sample_context (mk_cog "Mod")
    (mk_command "" :: sample_commands 30) = Raise IndexError
  ∧ KuriHelp.send_cog_help sample_context 1 (mk_cog "Mod")
      (mk_command "" :: sample_commands 30) = Raise IndexError.
Proof.
  destruct (command_selects_empty_name sample_context (mk_cog "Mod")
              (mk_command "" :: sample_commands 30) (mk_command ""))
    as [H1 H2]; [vm_compute; lia | reflexivity | reflexivity |].
  split; [exact H1 | by apply H2].
Defined.

(** ** Button presses *)

Lemma session_view v ints :
  (session v ints).1 = foldl (λ w i, exec (dispatch i) w) v ints.
Proof.
  unfold session. generalize (@nil Event).
  revert v. induction ints as [|i ints IH]; intros v evs; [done|].
  cbn [foldl]. unfold deliver at 2. cbn [fst snd]. unfold exec at 2.
  destruct (dispatch i v) as [[r v'] evs']. apply IH.
Qed.

(** One press by the requester: the cursor moves as the operation says, the
    page count stays, and the buttons are set as the callback sets them. *)
Lemma press_step v o :
  let w := exec (dispatch (press (author v) o)) v in
  let q := step (paginator v) o in
  author w = author v
  ∧ idx (paginator w) = idx q ∧ n_pages (paginator w) = n_pages q
  ∧ buttons w =
    match o with
    | OpFirst => declared_buttons
    | OpLast => {| first_page := false; prev_page := false;
                   next_page := true; last_page := true |}
    | OpPrevious =>
        {| first_page := if is_first q then true else first_page (buttons v);
           prev_page := if is_first q then true else prev_page (buttons v);
           next_page := false; last_page := false |}
    | OpNext =>
        {| first_page := false; prev_page := false;
           next_page := if is_last q then true else next_page (buttons v);
           last_page := if is_last q then true else last_page (buttons v) |}
    end.
Proof.
  unfold dispatch, HelpView.interaction_check, press. run_act.
  rewrite Z.eqb_refl. cbn.
  destruct o; unfold callback; cbn [component button_of];
    [unfold HelpView.prev_page_callback | unfold HelpView.next_page_callback
    | unfold HelpView.first_page_callback | unfold HelpView.last_page_callback];
    unfold HelpView.edit_current; run_act.
  - destruct (is_first (previous (paginator v))) eqn:Hf; run_act;
      destruct (current (previous (paginator v))) as [[e p']|] eqn:Hc; cbn;
      try (apply current_cursor in Hc as [-> ->]); by rewrite ?Hf.
  - destruct (is_last (next (paginator v))) eqn:Hf; run_act;
      destruct (current (next (paginator v))) as [[e p']|] eqn:Hc; cbn;
      try (apply current_cursor in Hc as [-> ->]); by rewrite ?Hf.
  - destruct (current (first (paginator v))) as [[e p']|] eqn:Hc; cbn;
      try (apply current_cursor in Hc as [-> ->]); done.
  - destruct (current (last (paginator v))) as [[e p']|] eqn:Hc; cbn;
      try (apply current_cursor in Hc as [-> ->]); done.
Qed.

Ltac case_eqb :=
  repeat match goal with
         | |- context [?a =? ?b] => destruct (Z.eqb_spec a b)
         end.

Lemma mirror_step w o :
  2 ≤ n_pages (paginator w) → in_range (paginator w) → buttons_mirror w →
  let w' := exec (dispatch (press (author w) o)) w in
  buttons_mirror w' ∧ in_range (paginator w').
Proof.
  intros Hn Hr (H1 & H2 & H3 & H4) w'.
  destruct (press_step w o) as (_ & Hi & Hn' & Hb). fold w' in Hi, Hn', Hb.
  assert (Hf : ∀ x, is_first x = (idx x =? 0)) by done.
  assert (Hl : ∀ x, is_last x = (idx x =? n_pages x - 1)) by done.
  unfold buttons_mirror, in_range in *.
  rewrite Hf in H1, H2. rewrite Hl in H3, H4.
  rewrite !Hf, !Hl, Hb, Hi, Hn'. rewrite !Hf, !Hl, H1, H2, H3, H4.
  rewrite n_pages_step, idx_step.
  destruct o; cbn [first_page prev_page next_page last_page declared_buttons];
    case_eqb; split_and!; try done; lia.
Qed.

(** X14. On a view constructed over a paginator of at least two pages, after
    any presses of the four navigation buttons by the requester, the buttons
    say where the cursor is: first/back are disabled exactly on the first
    page and next/last exactly on the last; the cursor is where the same
    sequence of cursor operations puts it, within the pages. *)
Theorem buttons_mirror_cursor (p : Paginator) (a : Z) (ops : list Op) :
  2 ≤ n_pages p → idx p = 0 →
  let v := (session (HelpView.init p a) (map (press a) ops)).1 in
  buttons_mirror v
  ∧ idx (paginator v) = idx (run p ops)
  ∧ n_pages (paginator v) = n_pages p
  ∧ 0 ≤ idx (paginator v) ≤ n_pages p - 1
  ∧ author v = a.
Proof.
  intros Hn H0 v. unfold v. rewrite session_view.
  assert (Hinit : HelpView.init p a
                  = {| paginator := p; message := None; author := a;
                       buttons := declared_buttons; children := [];
                       timeout := 30; stopped := false |}).
  { unfold HelpView.init. cbn [paginator].
    destruct (Z.eqb_spec (n_pages p) 1); [lia | done]. }
  rewrite Hinit. clear v Hinit.
  assert (Hgen : ∀ ops w q,
            author w = a → idx (paginator w) = idx q →
            n_pages (paginator w) = n_pages q → 2 ≤ n_pages q →
            in_range q → buttons_mirror w →
            let v := foldl (λ w i, exec (dispatch i) w) w (map (press a) ops) in
            buttons_mirror v ∧ idx (paginator v) = idx (run q ops)
            ∧ n_pages (paginator v) = n_pages q
            ∧ 0 ≤ idx (paginator v) ≤ n_pages q - 1 ∧ author v = a).
  { clear. induction ops as [|o ops IH]; intros w q Ha Hi Hn Hq Hr Hm.
    - cbn. unfold in_range in Hr. split_and!; try done; lia.
    - subst a. cbn [map foldl].
      destruct (press_step w o) as (Ha' & Hi' & Hn' & _).
      destruct (mirror_step w o) as [Hm' Hr'];
        [lia | unfold in_range in *; lia | done |].
      cbn zeta in *.
      assert (Hq' : n_pages (step q o) = n_pages q) by apply n_pages_step.
      specialize (IH (exec (dispatch (press (author w) o)) w) (step q o)).
      rewrite Hq' in IH. apply IH.
      + done.
      + by rewrite Hi', !idx_step, Hi, Hn.
      + by rewrite Hn', n_pages_step.
      + done.
      + apply step_in_range; [lia | done].
      + done. }
  apply Hgen; try done.
  - unfold in_range. lia.
  - unfold buttons_mirror. cbn [buttons paginator declared_buttons first_page
      prev_page next_page last_page].
    assert (Hf : ∀ x, is_first x = (idx x =? 0)) by done.
    assert (Hl : ∀ x, is_last x = (idx x =? n_pages x - 1)) by done.
    rewrite Hf, Hl, H0. case_eqb; split_and!; try done; lia.
Qed.

Lemma buttons_mirror_cursor_witness :
  let ops := [OpNext; OpNext; OpNext; OpPrevious; OpLast; OpFirst; OpNext] in
  let v := (session (HelpView.init sample_detail 7) (map (press 7) ops)).1 in
  buttons_mirror v
  ∧ idx (paginator v) = idx (run sample_detail ops)
  ∧ n_pages (paginator v) = n_pages sample_detail
  ∧ 0 ≤ idx (paginator v) ≤ n_pages sample_detail - 1
  ∧ author v = 7.
Proof.
  apply (buttons_mirror_cursor sample_detail 7); [by vm_compute | reflexivity].
Defined.

(** ** Views over an empty paginator *)

(** X15. The constructor and [change_paginator] disagree on a paginator
    without pages: the constructor disables all buttons only for exactly one
    page, so over zero pages it leaves next/last enabled, where
    [change_paginator] disables all four. On the constructed view a press of
    Next by the requester then puts the cursor at -1. *)
Theorem empty_paginator_buttons (p : Paginator) (a : Z) (v : HelpView) :
  n_pages p = 0 → idx p = 0 →
  buttons (HelpView.init p a) = declared_buttons
  ∧ next_page (buttons (HelpView.init p a)) = false
  ∧ last_page (buttons (HelpView.init p a)) = false
  ∧ buttons (exec (HelpView.change_paginator p) v) = all_disabled
  ∧ idx (paginator (exec (dispatch (press a OpNext)) (HelpView.init p a))) = -1.
Proof.
  intros Hn H0.
  assert (Hinit : HelpView.init p a
                  = {| paginator := p; message := None; author := a;
                       buttons := declared_buttons; children := [];
                       timeout := 30; stopped := false |}).
  { unfold HelpView.init. cbn [paginator]. by rewrite Hn. }
  rewrite Hinit. split_and!; try done.
  - unfold HelpView.change_paginator, HelpView.edit_current. run_act.
    fold (n_pages p). rewrite Hn. run_act.
    by destruct (current p) as [[e p']|].
  - pose proof (press_step
                  {| paginator := p; message := None; author := a;
                     buttons := declared_buttons; children := [];
                     timeout := 30; stopped := false |} OpNext) as (_ & Hi & _).
    cbn [author paginator] in Hi. rewrite Hi, idx_step. lia.
Qed.

Lemma empty_paginator_buttons_witness :
  let p := Detail (CogHelpPaginator.init (mk_cog "Mod") [] ".") in
  buttons (HelpView.init p 7) = declared_buttons
  ∧ next_page (buttons (HelpView.init p 7)) = false
  ∧ last_page (buttons (HelpView.init p 7)) = false
  ∧ buttons (exec (HelpView.change_paginator p) (HelpView.init sample_detail 7))
    = all_disabled
  ∧ idx (paginator (exec (dispatch (press 7 OpNext)) (HelpView.init p 7))) = -1.
Proof.
  apply (empty_paginator_buttons
           (Detail (CogHelpPaginator.init (mk_cog "Mod") [] ".")) 7);
    reflexivity.
Defined.

(** X16. Help for a category none of whose commands is visible still sends
    a message: a page without fields, titled with the category and without
    page suffix, over a paginator of zero pages; the view has next/last
    enabled and a single selector whose only option is the synthetic one. *)
Theorem send_cog_help_nothing_visible (cx : Context) (msg : nat) (cog : Cog)
        (cog_commands : list Command) :
  filter_commands cx cog_commands = [] →
  ∃ v e, KuriHelp.send_cog_help cx msg cog cog_commands
         = Ok (v, [Send e (Some declared_buttons)])
         ∧ fields e = []
         ∧ title e = cog_qualified_name cog +:+ " commands"
         ∧ n_pages (paginator v) = 0 ∧ idx (paginator v) = 0
         ∧ buttons v = declared_buttons
         ∧ message v = Some msg
         ∧ children v = [CommandItem (command_select cog [] cx "")]
         ∧ length (CommandSelect.options (command_select cog [] cx "")) = 1%nat.
Proof.
  intros Hf. unfold KuriHelp.send_cog_help. rewrite Hf.
  eexists _, _. split; [reflexivity|]. by split_and!.
Qed.

Lemma send_cog_help_nothing_visible_witness :
  ∃ v e, KuriHelp.send_cog_help sample_context 1 (mk_cog "Mod") []
         = Ok (v, [Send e (Some declared_buttons)])
         ∧ fields e = []
         ∧ title e = cog_qualified_name (mk_cog "Mod") +:+ " commands"
         ∧ n_pages (paginator v) = 0 ∧ idx (paginator v) = 0
         ∧ buttons v = declared_buttons
         ∧ message v = Some 1%nat
         ∧ children v
           = [CommandItem (command_select (mk_cog "Mod") [] sample_context "")]
         ∧ length (CommandSelect.options
                     (command_select (mk_cog "Mod") [] sample_context ""))
           = 1%nat.
Proof.
  apply (send_cog_help_nothing_visible sample_context 1 (mk_cog "Mod") []).
  reflexivity.
Defined.

(** ** Selector choices *)

Lemma change_paginator_ok p v e p' :
  current p = Ok (e, p') →
  HelpView.change_paginator p v
  = (Ok tt, set_paginator p' (set_buttons (swap_buttons (n_pages p)) v),
     [Edit (Some e) (Some (swap_buttons (n_pages p)))]).
Proof.
  intros Hc. unfold HelpView.change_paginator, HelpView.edit_current, swap_buttons.
  run_act. fold (n_pages p). destruct (1 <? n_pages p); run_act; by rewrite Hc.
Qed.

Lemma change_paginator_raise p v x :
  current p = Raise x →
  HelpView.change_paginator p v
  = (Raise x, set_paginator p (set_buttons (swap_buttons (n_pages p)) v), []).
Proof.
  intros Hc. unfold HelpView.change_paginator, HelpView.edit_current, swap_buttons.
  run_act. fold (n_pages p). destruct (1 <? n_pages p); run_act; by rewrite Hc.
Qed.

Lemma change_paginator_detail c cmds pre v :
  ∃ p', HelpView.change_paginator (Detail (CogHelpPaginator.init c cmds pre)) v
        = (Ok tt,
           set_paginator p'
             (set_buttons (swap_buttons (ceil_div (Z.of_nat (length cmds)) 8)) v),
           [Edit (Some (detail_page c cmds pre 0))
                 (Some (swap_buttons (ceil_div (Z.of_nat (length cmds)) 8)))])
        ∧ detail_state c cmds pre p' ∧ idx p' = 0
        ∧ n_pages p' = ceil_div (Z.of_nat (length cmds)) 8
        ∧ pages p' !! 0 = Some (detail_page c cmds pre 0).
Proof.
  assert (Hst : detail_state c cmds pre (Detail (CogHelpPaginator.init c cmds pre))).
  { eexists. split; [done|]. apply detail_inv_init. }
  destruct (detail_state_current _ _ _ _ Hst) as (p' & Hc & Hst' & Hi & Hl & _).
  exists p'. rewrite (change_paginator_ok _ v _ _ Hc).
  destruct (current_cursor _ _ _ Hc) as [_ Hn]. by split_and!.
Qed.

Lemma dict_get_missing (m : Mapping) k : k ∉ m.*1 → dict_get m k = Raise KeyError.
Proof.
  induction m as [|[k' v'] m IH]; intros Hk; [done|].
  cbn in *. apply not_elem_of_cons in Hk as [Hne Hk].
  rewrite decide_False by done. by apply IH.
Qed.

Lemma eqb_main value : value ≠ "main" → String.eqb value "main" = false.
Proof. intros H. by apply String.eqb_neq. Qed.

(** X17. A selector callback acknowledges the interaction before anything
    else, and a choice it cannot resolve changes nothing: with no value it
    raises [IndexError]; a category name the bot does not know or that is no
    key of the mapping raises [KeyError]; a command name the bot does not
    know raises [AttributeError]. In each case the view is exactly as before
    and the acknowledgement is the only event. *)
Theorem selector_choice_unresolved (v : HelpView) (i : Interaction)
        (cs : CategorySelect.t) (ms : CommandSelect.t) :
  (values i = [] →
   category_callback cs i v = (Raise IndexError, v, [Defer])
   ∧ command_callback ms i v = (Raise IndexError, v, [Defer]))
  ∧ (∀ value,
       values i !! 0%nat = Some value → value ≠ "main" →
       (match get_cog (CategorySelect.ctx cs) value with
        | None => True
        | Some c => c ∉ (CategorySelect.mapping cs).*1
        end →
        category_callback cs i v = (Raise KeyError, v, [Defer]))
       ∧ (get_command (CommandSelect.ctx ms) value = None →
          command_callback ms i v = (Raise AttributeError, v, [Defer]))).
Proof.
  split.
  - intros Hv. unfold category_callback, command_callback. run_act.
    by rewrite Hv.
  - intros value Hv Hne. apply eqb_main in Hne.
    assert (Hi : py_index (values i) 0 = Ok value) by by apply py_index_lookup.
    split.
    + intros Hc. unfold category_callback. run_act. rewrite Hi, Hne.
      destruct (get_cog _ value) as [c|]; run_act; [|done].
      by rewrite dict_get_missing.
    + intros Hc. unfold command_callback. run_act. by rewrite Hi, Hne, Hc.
Qed.

Lemma selector_choice_unresolved_witness :
  let v := HelpView.init sample_detail 7 in
  let i := {| user := 7; component := Child 0; values := ["Mod"] |} in
  category_callback (category_select sample_mapping sample_context) i v
  = (Raise KeyError, v, [Defer])
  ∧ command_callback
      (command_select (mk_cog "Mod") (sample_commands 3) sample_context "") i v
    = (Raise AttributeError, v, [Defer]).
Proof.
  intros v i.
  destruct (selector_choice_unresolved v i
              (category_select sample_mapping sample_context)
              (command_select (mk_cog "Mod") (sample_commands 3)
                 sample_context "")) as (_ & H).
  destruct (H "Mod") as [H1 H2]; [reflexivity | discriminate |].
  split; [by apply H1 | by apply H2].
Defined.

(** X18. Choosing the synthetic option of a command selector installs a
    fresh detail paginator over that selector's own commands (for a chunk
    selector its chunk of at most 24, so at most 3 pages, not the whole
    category), on page 0, with the buttons set for its page count, and edits
    the message to its first page. Choosing a command the bot knows installs
    the single-command paginator, all buttons disabled, and shows its
    display. Either way the acknowledgement comes first. *)
Theorem command_select_choice (s : CommandSelect.t) (i : Interaction)
        (v : HelpView) :
  let c := CommandSelect.cog s in
  let cmds := CommandSelect.commands s in
  let pre := clean_prefix (CommandSelect.ctx s) in
  let n := ceil_div (Z.of_nat (length cmds)) 8 in
  (values i !! 0%nat = Some "main" →
   ∃ p', command_callback s i v
         = (Ok tt, set_paginator p' (set_buttons (swap_buttons n) v),
            [Defer; Edit (Some (detail_page c cmds pre 0))
                         (Some (swap_buttons n))])
         ∧ detail_state c cmds pre p' ∧ idx p' = 0 ∧ n_pages p' = n
         ∧ pages p' !! 0 = Some (detail_page c cmds pre 0)
         ∧ ((length cmds ≤ 24)%nat → n ≤ 3))
  ∧ (∀ value cmd,
       values i !! 0%nat = Some value → value ≠ "main" →
       get_command (CommandSelect.ctx s) value = Some cmd →
       let q := CommandHelpPaginator.init cmd pre in
       command_callback s i v
       = (Ok tt, set_paginator (Single q) (set_buttons all_disabled v),
          [Defer; Edit (Some (CommandHelpPaginator.create_embed q cmd))
                       (Some all_disabled)])).
Proof.
  intros c cmds pre n. split.
  - intros Hv.
    assert (Hi : py_index (values i) 0 = Ok "main") by by apply py_index_lookup.
    destruct (change_paginator_detail c cmds pre v)
      as (p' & Hch & Hst & Hi0 & Hn & Hl).
    exists p'. split_and!; try done.
    + unfold command_callback. run_act. rewrite Hi. cbn.
      fold c cmds pre. rewrite Hch. done.
    + intros Hlen. unfold n.
      pose proof (ceil_div_spec (Z.of_nat (length cmds)) 8 eq_refl). lia.
  - intros value cmd Hv Hne Hc q. apply eqb_main in Hne.
    assert (Hi : py_index (values i) 0 = Ok value) by by apply py_index_lookup.
    unfold command_callback. run_act. rewrite Hi, Hne, Hc.
    fold pre. fold q.
    by rewrite (change_paginator_ok (Single q) v
                  (CommandHelpPaginator.create_embed q cmd) (Single q)).
Qed.

Lemma command_select_choice_witness :
  let s := command_select (mk_cog "Mod") (sample_commands 24)
             sample_context "[M-N]" in
  let i := {| user := 7; component := Child 0; values := ["main"] |} in
  let v := HelpView.init sample_single 7 in
  ∃ p', command_callback s i v
        = (Ok tt, set_paginator p' (set_buttons (swap_buttons 3) v),
           [Defer; Edit (Some (detail_page (mk_cog "Mod") (sample_commands 24) "." 0))
                        (Some (swap_buttons 3))])
        ∧ n_pages p' = 3.
Proof.
  intros s i v.
  destruct (command_select_choice s i v) as [H _].
  destruct H as (p' & H1 & _ & _ & H2 & _); [reflexivity|].
  exists p'. split; [exact H1 | exact H2].
Defined.

(** X19. Choosing the synthetic option of the category selector over a
    non-empty mapping installs a fresh index paginator over the selector's
    mapping, on page 0, and edits the message to its first page; choosing a
    category the bot knows and the mapping holds installs a fresh detail
    paginator over that category's commands. In both cases the buttons are
    set for the new page count and the acknowledgement comes first. *)
Theorem category_select_choice (s : CategorySelect.t) (i : Interaction)
        (v : HelpView) :
  let m := CategorySelect.mapping s in
  let cx := CategorySelect.ctx s in
  dict_wf m →
  (values i !! 0%nat = Some "main" → m ≠ [] →
   let n := ceil_div (Z.of_nat (length m)) 9 in
   let e := main_page (bot_description cx) (clean_prefix cx) n 0
              (py_slice m 0 9) in
   ∃ p', category_callback s i v
         = (Ok tt, set_paginator p' (set_buttons (swap_buttons n) v),
            [Defer; Edit (Some e) (Some (swap_buttons n))])
         ∧ idx p' = 0 ∧ n_pages p' = n ∧ pages p' !! 0 = Some e)
  ∧ (∀ value c cmds,
       values i !! 0%nat = Some value → value ≠ "main" →
       get_cog cx value = Some c → (c, cmds) ∈ m →
       let n := ceil_div (Z.of_nat (length cmds)) 8 in
       ∃ p', category_callback s i v
             = (Ok tt, set_paginator p' (set_buttons (swap_buttons n) v),
                [Defer; Edit (Some (detail_page c cmds (clean_prefix cx) 0))
                             (Some (swap_buttons n))])
             ∧ detail_state c cmds (clean_prefix cx) p'
             ∧ idx p' = 0 ∧ n_pages p' = n).
Proof.
  intros m cx Hwf. split.
  - intros Hv Hne n e.
    assert (Hi : py_index (values i) 0 = Ok "main") by by apply py_index_lookup.
    pose proof (main_init m (bot_description cx) (clean_prefix cx) Hwf) as Hinit.
    match type of Hinit with _ = Ok ?r => set (q := r) in * end.
    destruct (main_calls_current m _ _ q [] Hwf Hne Hinit)
      as (Hn & _ & p' & Hc & Hl & _).
    change (calls (Main q) []) with (Main q) in Hc, Hl.
    change (idx (Main q)) with 0 in Hc, Hl.
    destruct (current_cursor _ _ _ Hc) as [Hi' Hn'].
    exists p'. split_and!; [|done| by rewrite Hn' | done].
    unfold category_callback. run_act. rewrite Hi. cbn.
    fold m cx. rewrite Hinit. cbn.
    rewrite (change_paginator_ok _ v _ _ Hc). by rewrite Hn.
  - intros value c cmds Hv Hne Hc Hin n. apply eqb_main in Hne.
    assert (Hi : py_index (values i) 0 = Ok value) by by apply py_index_lookup.
    destruct (change_paginator_detail c cmds (clean_prefix cx) v)
      as (p' & Hch & Hst & Hi0 & Hn & _).
    exists p'. split_and!; try done.
    unfold category_callback. run_act. rewrite Hi, Hne. fold cx. rewrite Hc.
    run_act. fold m. rewrite (dict_get_elem m c cmds Hwf Hin). cbn.
    by rewrite Hch.
Qed.

Lemma category_select_choice_witness :
  let s := category_select sample_mapping sample_context in
  let i := {| user := 7; component := Child 0; values := ["main"] |} in
  let v := HelpView.init sample_single 7 in
  let e := main_page "Kurisu" "." 3 0 (py_slice sample_mapping 0 9) in
  ∃ p', category_callback s i v
        = (Ok tt, set_paginator p' (set_buttons (swap_buttons 3) v),
           [Defer; Edit (Some e) (Some (swap_buttons 3))])
        ∧ idx p' = 0 ∧ n_pages p' = 3 ∧ pages p' !! 0 = Some e.
Proof.
  intros s i v e.
  destruct (category_select_choice s i v) as [H _].
  - apply (bool_decide_unpack _). by vm_compute.
  - apply H; [reflexivity | discriminate].
Defined.

(** ** What a press shows *)

Lemma press_run v o e p' :
  current (step (paginator v) o) = Ok (e, p') →
  let w := exec (dispatch (press (author v) o)) v in
  dispatch (press (author v) o) v
  = (Ok tt, w, [Edit (Some e) (Some (buttons w))])
  ∧ paginator w = p'.
Proof.
  intros Hc. unfold dispatch, HelpView.interaction_check, press. run_act.
  rewrite Z.eqb_refl. cbn.
  destruct o; unfold callback; cbn [component button_of];
    [unfold HelpView.prev_page_callback | unfold HelpView.next_page_callback
    | unfold HelpView.first_page_callback | unfold HelpView.last_page_callback];
    unfold HelpView.edit_current; run_act; cbn [step] in Hc.
  - destruct (is_first (previous (paginator v))); run_act; by rewrite Hc.
  - destruct (is_last (next (paginator v))); run_act; by rewrite Hc.
  - by rewrite Hc.
  - by rewrite Hc.
Qed.

(** X20. On a view over a detail paginator, each press of a navigation
    button by the requester edits the message exactly once, to the page at
    the cursor the press leads to, built from that page's slice of the
    commands, together with the buttons as the press leaves them; the page is
    then cached and the paginator is still consistent. *)
Theorem press_shows_page (c : Cog) (cmds : list Command) (pre : string)
        (v : HelpView) (o : Op) :
  detail_state c cmds pre (paginator v) →
  let w := exec (dispatch (press (author v) o)) v in
  let i := idx (step (paginator v) o) in
  dispatch (press (author v) o) v
  = (Ok tt, w, [Edit (Some (detail_page c cmds pre i)) (Some (buttons w))])
  ∧ fields (detail_page c cmds pre i)
    = map command_entry (py_slice cmds (i * 8) (i * 8 + 8))
  ∧ detail_state c cmds pre (paginator w)
  ∧ idx (paginator w) = i
  ∧ pages (paginator w) !! i = Some (detail_page c cmds pre i).
Proof.
  intros Hst w i.
  pose proof (detail_state_step _ _ _ _ o Hst) as Hst'.
  destruct (detail_state_current _ _ _ _ Hst') as (p' & Hc & Hst'' & Hi & Hl & _).
  destruct (press_run v o _ _ Hc) as [Hd Hp]. fold w in Hd, Hp. fold i in Hd.
  rewrite Hp. split_and!; try done.
  unfold detail_page. apply detail_create_embed_fields.
Qed.

Lemma press_shows_page_witness :
  let v := HelpView.init sample_detail 7 in
  let w := exec (dispatch (press 7 OpLast)) v in
  dispatch (press 7 OpLast) v
  = (Ok tt, w,
     [Edit (Some (detail_page (mk_cog "Mod") (sample_commands 17) "." 2))
           (Some (buttons w))])
  ∧ fields (detail_page (mk_cog "Mod") (sample_commands 17) "." 2)
    = map command_entry (py_slice (sample_commands 17) (2 * 8) (2 * 8 + 8))
  ∧ detail_state (mk_cog "Mod") (sample_commands 17) "." (paginator w)
  ∧ idx (paginator w) = 2
  ∧ pages (paginator w) !! 2
    = Some (detail_page (mk_cog "Mod") (sample_commands 17) "." 2).
Proof.
  apply (press_shows_page (mk_cog "Mod") (sample_commands 17) "."
           (HelpView.init sample_detail 7) OpLast).
  eexists. split; [reflexivity|]. apply detail_inv_init.
Defined.

(** ** Category and group help *)

(** X21. [send_cog_help] and the splitting: when the splitting makes at most
    four selectors, [send_cog_help] sends one message with the first page of
    the category's visible commands and a view holding those selectors, in
    order, as its only children; the view is bound to the requester and the
    message, on page 0 of [ceil(len/8)], with all buttons disabled exactly
    for one page. When the splitting makes more than four, the view has no
    row for the fifth: the call raises [ValueError] and nothing is sent.
    When making a selector raises, nothing is sent and the call raises that
    error, or [ValueError] when the view was full before. *)
Theorem send_cog_help_composes (cx : Context) (msg : nat) (cog : Cog)
        (cog_commands : list Command) :
  let cmds := filter_commands cx cog_commands in
  let pre := ctx_prefix cx in
  let n := ceil_div (Z.of_nat (length cmds)) 8 in
  (∀ sels, KuriHelp.command_selects cx cog cmds = Ok sels →
     (length sels ≤ 4)%nat →
     ∃ v, KuriHelp.send_cog_help cx msg cog cog_commands
          = Ok (v, [Send (detail_page cog cmds pre 0) (Some (buttons v))])
          ∧ children v = map CommandItem sels
          ∧ detail_state cog cmds pre (paginator v)
          ∧ idx (paginator v) = 0 ∧ n_pages (paginator v) = n
          ∧ pages (paginator v) !! 0 = Some (detail_page cog cmds pre 0)
          ∧ message v = Some msg ∧ author v = ctx_author cx
          ∧ buttons v = (if n =? 1 then all_disabled else declared_buttons))
  ∧ (∀ sels, KuriHelp.command_selects cx cog cmds = Ok sels →
       (4 < length sels)%nat →
       KuriHelp.send_cog_help cx msg cog cog_commands = Raise ValueError)
  ∧ (∀ x, KuriHelp.command_selects cx cog cmds = Raise x →
       KuriHelp.send_cog_help cx msg cog cog_commands = Raise x
       ∨ KuriHelp.send_cog_help cx msg cog cog_commands = Raise ValueError)
  ∧ ((length cmds ≤ 25)%nat →
     ∀ x, KuriHelp.command_selects cx cog cmds = Raise x →
          KuriHelp.send_cog_help cx msg cog cog_commands = Raise x).
Proof.
  intros cmds pre n. split_and!.
  - intros sels Hs Hlen.
    destruct (send_cog_help_sends cx msg cog cog_commands sels Hs Hlen)
      as (p' & H & Hst & Hi & Hn & Hl).
    eexists. split; [exact H|].
    cbn [children paginator message author buttons]. by split_and!.
  - intros sels Hs Hlen.
    by apply (send_cog_help_overfull cx msg cog cog_commands sels).
  - intros x Hs. by apply send_cog_help_raises.
  - intros Hlen x Hs. unfold KuriHelp.send_cog_help. cbn zeta. fold cmds.
    unfold KuriHelp.command_selects in Hs. revert Hs.
    rewrite (proj2 (Z.ltb_ge _ _)) by (unfold SELECT_MAX_VALUES; lia).
    unfold mbind, mret, result_bind, result_ret.
    destruct (CommandSelect.init cog cmds cx "") as [s|y]; [done|].
    by intros [= ->].
Qed.

Lemma send_cog_help_composes_witness :
  ∃ v, KuriHelp.send_cog_help sample_context 1 (mk_cog "Mod") (sample_commands 17)
       = Ok (v, [Send (detail_page (mk_cog "Mod") (sample_commands 17) "." 0)
                      (Some (buttons v))])
       ∧ children v
         = map CommandItem
             [command_select (mk_cog "Mod") (sample_commands 17)
                sample_context ""]
       ∧ n_pages (paginator v) = 3.
Proof.
  destruct (send_cog_help_composes sample_context 1 (mk_cog "Mod")
              (sample_commands 17)) as [H _].
  destruct (H [command_select (mk_cog "Mod") (sample_commands 17)
                 sample_context ""])
    as (v & H1 & H2 & _ & _ & H3 & _); [reflexivity | vm_compute; lia |].
  exists v. split_and!; [exact H1 | exact H2 | exact H3].
Defined.

(** X22. [send_group_help] builds its selector on the category the group
    belongs to: for a group outside any category it raises [AttributeError]
    and sends nothing. Otherwise, with at most 24 visible subcommands, it
    sends the first page of them, titled with the group, and the view holds
    a single unlabelled selector over all of them, which has one option more
    than there are subcommands. The selector is never split: from 25 visible
    subcommands on its constructor raises [ValueError] and nothing is
    sent. *)
Theorem send_group_help_selector (cx : Context) (msg : nat) (group : Group) :
  let cmds := filter_commands cx (group_commands group) in
  let g := group_category group in
  let pre := clean_prefix cx in
  (group_cog group = None →
   send_group_help cx msg group = Raise AttributeError)
  ∧ (∀ c, group_cog group = Some c → (length cmds ≤ 24)%nat →
       ∃ v, send_group_help cx msg group
            = Ok (v, [Send (detail_page g cmds pre 0) (Some (buttons v))])
            ∧ children v = [CommandItem (command_select c cmds cx "")]
            ∧ length (CommandSelect.options (command_select c cmds cx ""))
              = S (length cmds)
            ∧ detail_state g cmds pre (paginator v)
            ∧ idx (paginator v) = 0
            ∧ message v = Some msg ∧ author v = ctx_author cx)
  ∧ (∀ c, group_cog group = Some c → (25 ≤ length cmds)%nat →
       send_group_help cx msg group = Raise ValueError).
Proof.
  intros cmds g pre. split_and!.
  - intros Hg. unfold send_group_help. by rewrite Hg.
  - intros c Hg Hlen. unfold send_group_help. rewrite Hg. fold cmds g pre.
    rewrite command_select_init_ok by done.
    unfold mbind at 1 2, result_bind. rewrite add_item_init.
    destruct (send_view_detail g cmds pre (ctx_author cx)
                [CommandItem (command_select c cmds cx "")] msg)
      as (p' & H & Hst & Hi & _).
    eexists. split; [exact H|].
    cbn [children paginator message author buttons].
    split_and!; try done. cbn. by rewrite length_map.
  - intros c Hg Hlen. unfold send_group_help. rewrite Hg. fold cmds.
    by rewrite command_select_init_raise.
Qed.

Lemma send_group_help_selector_witness :
  send_group_help sample_context 1
    {| group_category := mk_cog "tag"; group_cog := None;
       group_commands := sample_commands 3 |}
  = Raise AttributeError
  ∧ send_group_help sample_context 1
      {| group_category := mk_cog "tag"; group_cog := Some (mk_cog "Tags");
         group_commands := sample_commands 25 |}
    = Raise ValueError
  ∧ ∃ v, send_group_help sample_context 1
           {| group_category := mk_cog "tag"; group_cog := Some (mk_cog "Tags");
              group_commands := sample_commands 3 |}
         = Ok (v, [Send (detail_page (mk_cog "tag") (sample_commands 3) "." 0)
                        (Some (buttons v))])
         ∧ children v
           = [CommandItem (command_select (mk_cog "Tags") (sample_commands 3)
                             sample_context "")].
Proof.
  split_and!.
  - destruct (send_group_help_selector sample_context 1
                {| group_category := mk_cog "tag"; group_cog := None;
                   group_commands := sample_commands 3 |}) as [H _].
    apply H. reflexivity.
  - destruct (send_group_help_selector sample_context 1
                {| group_category := mk_cog "tag";
                   group_cog := Some (mk_cog "Tags");
                   group_commands := sample_commands 25 |}) as (_ & _ & H).
    apply (H (mk_cog "Tags")); [reflexivity | vm_compute; lia].
  - destruct (send_group_help_selector sample_context 1
                {| group_category := mk_cog "tag";
                   group_cog := Some (mk_cog "Tags");
                   group_commands := sample_commands 3 |}) as (_ & H & _).
    destruct (H (mk_cog "Tags")) as (v & H1 & H2 & _);
      [reflexivity | vm_compute; lia |].
    exists v. split; [exact H1 | exact H2].
Defined.

(** ** Fallback texts *)

Lemma str_or_not_empty s d : d ≠ "" → str_or s d ≠ "".
Proof.
  intros Hd. unfold str_or. destruct (String.eqb_spec s ""); done.
Qed.

Lemma concat_not_empty (sep a : string) (l : list string) :
  a ≠ "" → String.concat sep (a :: l) ≠ "".
Proof.
  intros Ha. destruct l as [|b l]; [done|].
  cbn [String.concat]. by apply app_not_empty_l.
Qed.

(** X23. The fallbacks leave no empty text: every field of every detail
    page has a non-empty name and a non-empty value (the command's short
    description, or the placeholder when it has none), and the display of a
    single command has a non-empty description (its help, or the
    placeholder). Its fields are the field named "Aliases", whose text is
    the aliases joined by spaces, followed by the field named "Usage", when
    the command has aliases, and the "Usage" field alone when it has none;
    the Usage text is never empty, and the Aliases text is not empty when
    the first alias is not. *)
Theorem fallback_texts (c : Cog) (cmds : list Command) (pre : string) (i : Z)
        (cmd : Command) :
  (∀ f, f ∈ fields (detail_page c cmds pre i) →
        field_name f ≠ "" ∧ field_value f ≠ ""
        ∧ ∃ c0, c0 ∈ cmds
                ∧ field_value f = (if String.eqb (short_doc c0) ""
                                   then "No help for you." else short_doc c0))
  ∧ (let q := CommandHelpPaginator.init cmd pre in
     let e := CommandHelpPaginator.create_embed q cmd in
     let usage := {| field_name := "Usage";
                     field_value := pre +:+ " " +:+ qualified_name cmd
                                        +:+ " " +:+ signature cmd;
                     inline := false |} in
     let alias_field := {| field_name := "Aliases";
                           field_value := String.concat " " (aliases cmd);
                           inline := false |} in
     embed_description e ≠ ""
     ∧ embed_description e
       = match help cmd with
         | Some h => if String.eqb h "" then "No help for you." else h
         | None => "No help for you."
         end
     ∧ fields e = match aliases cmd with
                  | [] => [usage]
                  | _ :: _ => [alias_field; usage]
                  end
     ∧ field_value usage ≠ ""
     ∧ (∀ a l, aliases cmd = a :: l → a ≠ "" → field_value alias_field ≠ "")).
Proof.
  split.
  - intros f. unfold detail_page. rewrite detail_create_embed_fields.
    change (map ?g ?l) with (g <$> l).
    intros (c0 & -> & Hin)%list_elem_of_fmap. split_and!.
    + cbn. by apply app_not_empty_r.
    + cbn. by apply str_or_not_empty.
    + exists c0. split; [|done]. unfold py_slice in Hin.
      eapply subseteq_drop, subseteq_take, Hin.
  - cbn zeta. split_and!.
    + assert (Hd : CommandHelpPaginator.description
                       (CommandHelpPaginator.init cmd pre) ≠ "").
      { unfold CommandHelpPaginator.init. cbn [CommandHelpPaginator.description].
        destruct (help cmd); [by apply str_or_not_empty | done]. }
      unfold CommandHelpPaginator.create_embed. by destruct (aliases cmd).
    + unfold CommandHelpPaginator.create_embed. by destruct (aliases cmd).
    + unfold CommandHelpPaginator.create_embed. by destruct (aliases cmd).
    + cbn [field_value]. destruct pre; [done|done].
    + intros a l Ha Hne. cbn [field_value]. rewrite Ha.
      by apply concat_not_empty.
Qed.

Lemma fallback_texts_witness :
  (let f := command_entry (mk_command "m8") in
   field_name f ≠ "" ∧ field_value f ≠ ""
   ∧ ∃ c0, c0 ∈ sample_commands 17
           ∧ field_value f = (if String.eqb (short_doc c0) ""
                              then "No help for you." else short_doc c0))
  ∧ (let cmd := {| name := "ping"; qualified_name := "ping";
                   signature := "<arg>"; short_doc := ""; help := None;
                   description := ""; aliases := ["p"; "pong"];
                   cog_name := None |} in
     fields (CommandHelpPaginator.create_embed
               (CommandHelpPaginator.init cmd ".") cmd)
     = [{| field_name := "Aliases"; field_value := "p pong"; inline := false |};
        {| field_name := "Usage"; field_value := ". ping <arg>";
           inline := false |}]).
Proof.
  split.
  - destruct (fallback_texts (mk_cog "Mod") (sample_commands 17) "." 1
                (mk_command "ping")) as [H _].
    apply H. by apply (list_elem_of_lookup_2 _ 0%nat).
  - destruct (fallback_texts (mk_cog "Mod") (sample_commands 17) "." 1
                {| name := "ping"; qualified_name := "ping";
                   signature := "<arg>"; short_doc := ""; help := None;
                   description := ""; aliases := ["p"; "pong"];
                   cog_name := None |}) as [_ (_ & _ & H & _)].
    exact H.
Defined.
